(** * awd_submitter: a shallow embedding of [awd_submitter.py]

    The development follows the source file top to bottom: Python values and
    exceptions, the flag pattern [FLAG_REGEX] and its matcher, then the class
    [AWDFlagSubmitter] (constructor, flag validation, flag file reader,
    [submit_single], [submit_all]), [load_config] and the summary line of
    [main], followed by the reader of standard input, [get_flags] and [main]
    as a whole.  The argument parser and the logging set-up are not embedded:
    they are [argparse]'s and [logging]'s work, and no statement below is
    about them.  Theorems come after the definitions.

    Conventions.
    - A Python [str] is a list of Unicode code points ([list N]); [py] turns
      an ASCII literal of the source into one.
    - A Python [int] is a [Z].
    - The result dict of a submission is a [gmap string pyval]; the dicts
      that come from the configuration are records of optional fields, one
      field per key that the source reads.
    - Effects: every function returns its outcome (an exception or a value)
      together with the list of events it produced (HTTP posts, sleeps, log
      records).  The outside world is read through oracles passed as
      arguments: what [requests.post] does on each attempt, what the file
      system holds. *)

From Stdlib Require Import ZArith NArith QArith Ascii String List Lia.
From stdpp Require Import base option list list_numbers gmap strings pretty fin_maps.

Local Open Scope Z_scope.

(** ** Python strings *)

Abbreviation pystr := (list N).

(** The code points of a literal of the source. *)
Definition py (s : string) : pystr :=
  List.map N_of_ascii (list_ascii_of_string s).

(** [str.isspace] on one code point: CPython's [_PyUnicode_IsWhitespace]. *)
Definition isspace (c : N) : bool :=
  ((9 <=? c) && (c <=? 13) || (28 <=? c) && (c <=? 32)
   || (c =? 133) || (c =? 160) || (c =? 5760)
   || (8192 <=? c) && (c <=? 8202)
   || (c =? 8232) || (c =? 8233) || (c =? 8239) || (c =? 8287)
   || (c =? 12288))%N.

Fixpoint lstrip (s : pystr) : pystr :=
  match s with
  | c :: s' => if isspace c then lstrip s' else s
  | [] => []
  end.

Definition rstrip (s : pystr) : pystr := rev (lstrip (rev s)).

(** [str.strip()] with no argument. *)
Definition strip (s : pystr) : pystr := rstrip (lstrip s).

(** ** The fragment of [re] that [FLAG_REGEX] uses

    Literals, character sets given by ranges, and an exact repetition
    count [{n}]; the flag [re.I]. *)

(** Simple lower-case mapping.  Besides [A-Z], exactly two code points have an
    ASCII lower case: U+0130 (to [i]) and U+212A (to [k]).  Every other code
    point maps outside ASCII or to itself; the identity stands for both, since
    the pattern only mentions ASCII. *)
Definition tolower (c : N) : N :=
  (if (65 <=? c) && (c <=? 90) then c + 32
   else if c =? 304 then 105
   else if c =? 8490 then 107
   else c)%N.

(** Simple upper-case mapping; U+0131 and U+017F are the two code points
    outside [a-z] with an ASCII upper case. *)
Definition toupper (c : N) : N :=
  (if (97 <=? c) && (c <=? 122) then c - 32
   else if c =? 305 then 73
   else if c =? 383 then 83
   else c)%N.

Inductive atom :=
| Lit (c : N)                      (* a literal character *)
| CharSet (ranges : list (N * N)). (* [lo-hi...] *)

Definition in_ranges (ranges : list (N * N)) (c : N) : bool :=
  existsb (fun r => (fst r <=? c) && (c <=? snd r))%N ranges.

(** One character against one atom; [ignorecase] is [re.I]. *)
Definition atom_matches (ignorecase : bool) (a : atom) (c : N) : bool :=
  match a with
  | Lit l =>
      if ignorecase then (tolower c =? tolower l)%N else (c =? l)%N
  | CharSet rs =>
      if ignorecase
      then in_ranges rs (tolower c) || in_ranges rs (toupper (tolower c))
      else in_ranges rs c
  end.

(** A pattern is a sequence of atoms, each with its repetition count. *)
Abbreviation regex := (list (atom * nat)).

(** Consume exactly [n] characters matching [a]. *)
Fixpoint match_rep (ic : bool) (a : atom) (n : nat) (s : pystr) : option pystr :=
  match n with
  | O => Some s
  | S n' =>
      match s with
      | c :: s' => if atom_matches ic a c then match_rep ic a n' s' else None
      | [] => None
      end
  end.

Fixpoint match_seq (ic : bool) (r : regex) (s : pystr) : option pystr :=
  match r with
  | [] => Some s
  | (a, n) :: r' =>
      match match_rep ic a n s with
      | Some s' => match_seq ic r' s'
      | None => None
      end
  end.

(** [pattern.fullmatch(s)] as a truth value. *)
Definition fullmatch (ic : bool) (r : regex) (s : pystr) : bool :=
  match match_seq ic r s with
  | Some [] => true
  | _ => false
  end.

Definition lit (s : string) : regex := List.map (fun c => (Lit c, 1%nat)) (py s).

(** [[a-f0-9]] *)
Definition hexset : atom := CharSet [(97, 102); (48, 57)]%N.

(** [flag{[a-f0-9]{8}-[a-f0-9]{4}-[a-f0-9]{4}-[a-f0-9]{4}-[a-f0-9]{12}}]
    compiled with [re.I]. *)
Definition FLAG_REGEX : regex :=
  lit "flag{" ++ [(hexset, 8%nat)] ++ lit "-" ++ [(hexset, 4%nat)] ++ lit "-"
  ++ [(hexset, 4%nat)] ++ lit "-" ++ [(hexset, 4%nat)] ++ lit "-"
  ++ [(hexset, 12%nat)] ++ lit "}".

Definition FLAG_REGEX_flags_I : bool := true.

(** [AWDFlagSubmitter._validate_flag]; it does not read [self]. *)
Definition _validate_flag (flag : pystr) : bool :=
  fullmatch FLAG_REGEX_flags_I FLAG_REGEX (strip flag).

(** ** Python values, exceptions and effects *)

(** The scalar values that configuration fields and result fields hold. *)
Inductive pyval :=
| VNone
| VBool (b : bool)
| VInt (n : Z)
| VStr (s : pystr).

Global Instance pyval_eq_dec : EqDecision pyval.
Proof. solve_decision. Defined.

(** [str(v)], as an f-string formats a field. *)
Definition py_str (v : pyval) : pystr :=
  match v with
  | VNone => py "None"
  | VBool true => py "True"
  | VBool false => py "False"
  | VInt n => py (pretty n)
  | VStr s => s
  end.

(** Truth value of a Python object. *)
Definition truthy (v : pyval) : bool :=
  match v with
  | VNone => false
  | VBool b => b
  | VInt n => negb (n =? 0)
  | VStr s => match s with [] => false | _ => true end
  end.

Inductive exn :=
| KeyError (key : string)
| ValueError (msg : string)
| ZeroDivisionError
| OSError (msg : pystr).

Inductive level := INFO | WARNING | ERROR | CRITICAL.

(** One call of [requests.post]: the arguments the source passes. *)
Record request := {
  url : pystr;
  data_flag : pystr;
  req_headers : list (pystr * pystr);
  req_timeout : pyval;
  verify : bool
}.

Inductive event :=
| Post (r : request)           (* requests.post(...) was called *)
| Sleep (secs : Z)             (* time.sleep(secs) *)
| Log (lv : level) (msg : string).

(** A computation ends in an exception or a value, and leaves its events. *)
Definition M (A : Type) : Type := (exn + A) * list event.

Definition ret {A} (a : A) : M A := (inr a, []).
Definition raise {A} (e : exn) : M A := (inl e, []).
Definition tell (evs : list event) : M unit := (inr tt, evs).
Definition bind {A B} (m : M A) (k : A -> M B) : M B :=
  match m with
  | (inl e, evs) => (inl e, evs)
  | (inr a, evs) => let '(r, evs') := k a in (r, evs ++ evs')
  end.

Notation "x <~ m ;; k" := (bind m (fun x => k))
  (at level 100, m at next level, right associativity).
Notation "m ;;; k" := (bind m (fun _ => k))
  (at level 100, right associativity).

Definition is_post (e : event) : bool :=
  match e with Post _ => true | _ => false end.

(** How many HTTP requests a trace holds. *)
Definition posts (evs : list event) : nat := length (List.filter is_post evs).

(** ** Targets and configuration *)

(** One entry of [targets]: a dict read through the six keys below.  A field
    is [None] when the key is absent. *)
Record target := {
  ip : option pyval;
  port : option pyval;
  path : option pyval;
  protocol : option pyval;
  timeout : option pyval;
  headers : option (list (pystr * pystr))
}.

(** [config_data]: the dict read through its four keys, each absent or
    holding a value of the documented type. *)
Record config := {
  c_targets : option (list target);
  c_max_workers : option Z;
  c_max_retries : option Z;
  c_verify_ssl : option bool
}.

(** [d[key]] *)
Definition getitem {A} (key : string) (field : option A) : M A :=
  match field with
  | Some v => ret v
  | None => raise (KeyError key)
  end.

(** [d.get(key, dflt)] *)
Definition get {A} (field : option A) (dflt : A) : A := default dflt field.

(** ** class AWDFlagSubmitter *)

Record AWDFlagSubmitter := {
  targets : list target;
  max_workers : Z;
  max_retries : Z;
  verify_ssl : bool
}.

Definition __init__ (config_data : config) : M AWDFlagSubmitter :=
  let self := {| targets := get (c_targets config_data) [];
                 max_workers := get (c_max_workers config_data) 5;
                 max_retries := get (c_max_retries config_data) 2;
                 verify_ssl := get (c_verify_ssl config_data) false |} in
  match targets self with
  | [] =>
      tell [Log ERROR "No valid targets configured"] ;;;
      raise (ValueError "至少需要配置一个目标服务器")
  | _ :: _ => ret self
  end.

(** [_read_flags_file]: what opening and iterating the file gives.  Each line
    is as the text-mode iterator yields it, its newline included. *)
Inductive file_read :=
| ReadFails (msg : pystr)      (* [open] or the iteration raised *)
| Lines (ls : list pystr).

(** The list comprehension
    [[line.strip() for line in f if self._validate_flag(line)]]. *)
Fixpoint stripped_valid_lines (f : list pystr) : list pystr :=
  match f with
  | [] => []
  | line :: f' =>
      if _validate_flag line
      then strip line :: stripped_valid_lines f'
      else stripped_valid_lines f'
  end.

Definition _read_flags_file (fs : pystr -> file_read) (file_path : pystr)
  : M (list pystr) :=
  match fs file_path with
  | Lines f => ret (stripped_valid_lines f)
  | ReadFails e =>
      tell [Log ERROR "读取flag文件失败"] ;;;
      ret []
  end.

(** *** submit_single *)

Record response := { status_code : Z; text : pystr }.

(** What one call of [requests.post] does: it returns a response or raises an
    exception, of which the source keeps [str(e)]. *)
Inductive post_outcome :=
| Responds (resp : response)
| Throws (msg : pystr).

(** [range(lo, hi)] *)
Definition range (lo hi : Z) : list Z := seqZ lo (hi - lo).

(** The [for attempt in range(...)] loop of [submit_single].  [post attempt req]
    is the outcome of the call made in iteration [attempt]. *)
Fixpoint retry_loop (post : Z -> request -> post_outcome) (req : request)
    (attempts : list Z) (result : gmap string pyval) : M (gmap string pyval) :=
  match attempts with
  | [] => ret result
  | attempt :: rest =>
      tell [Post req] ;;;
      match post attempt req with
      | Responds resp =>
          (* result.update({...}); break *)
          ret (<["status_code" := VInt (status_code resp)]>
               (<["response" := VStr (take 100 (text resp))]>
               (<["attempt" := VInt attempt]>
               (<["success" := VBool (status_code resp =? 200)]> result))))
      | Throws msg =>
          tell [Sleep 1] ;;;
          retry_loop post req rest (<["error" := VStr msg]> result)
      end
  end.

(** The dict that [submit_single] starts from (lines 114-118). *)
Definition initial_result (target : target) (flag : pystr)
  : M (gmap string pyval) :=
  t_ip <~ getitem "ip" (ip target) ;;
  t_port <~ getitem "port" (port target) ;;
  ret ({[ "target" := VStr (py_str t_ip ++ py ":" ++ py_str t_port);
          "flag" := VStr (take 8 flag ++ py "...");
          "success" := VBool false ]} : gmap string pyval).

(** The arguments of [requests.post]: [url] and [headers] (lines 120-121) and
    the keyword arguments of the call (lines 125-131), which do not change from
    one attempt to the next. *)
Definition request_of (self : AWDFlagSubmitter) (target : target)
    (flag : pystr) : M request :=
  u_protocol <~ getitem "protocol" (protocol target) ;;
  u_ip <~ getitem "ip" (ip target) ;;
  u_port <~ getitem "port" (port target) ;;
  u_path <~ getitem "path" (path target) ;;
  ret {| url := py_str u_protocol ++ py "://" ++ py_str u_ip ++ py ":"
                ++ py_str u_port ++ py_str u_path;
         data_flag := flag;
         req_headers := get (headers target) [];
         req_timeout := get (timeout target) (VInt 3);
         verify := verify_ssl self |}.

Definition submit_single (self : AWDFlagSubmitter)
    (post : Z -> request -> post_outcome) (target : target) (flag : pystr)
  : M (gmap string pyval) :=
  result <~ initial_result target flag ;;
  req <~ request_of self target flag ;;
  result <~ retry_loop post req (range 1 (max_retries self + 1)) result ;;
  tell [Log INFO "提交结果"] ;;;
  ret result.

(** *** submit_all *)

(** The nested loops that submit the tasks: flags outside, targets inside. *)
Definition tasks (self : AWDFlagSubmitter) (flags : list pystr)
  : list (target * pystr) :=
  flat_map (fun flag => List.map (fun target => (target, flag)) (targets self))
           flags.

(** [executor.submit(self.submit_single, target, flag)] for every task, in
    submission order.  [world k] is what the network does to task number [k]
    (counted from 0), attempt by attempt; a future holds the outcome of its
    task.  The tasks' events are listed task after task: the pool may
    interleave them, which no outcome depends on. *)
Definition futures (self : AWDFlagSubmitter)
    (world : nat -> Z -> request -> post_outcome) (flags : list pystr)
  : list (M (gmap string pyval)) :=
  imap (fun k tf => submit_single self (world k) (fst tf) (snd tf))
       (tasks self flags).

(** The loop [for future in futures: try ... except Exception ...]. *)
Fixpoint harvest (fs : list (M (gmap string pyval)))
    (results : list (gmap string pyval)) : M (list (gmap string pyval)) :=
  match fs with
  | [] => ret results
  | future :: fs' =>
      match fst future with
      | inr r => harvest fs' (results ++ [r])
      | inl e => tell [Log ERROR "提交任务异常"] ;;; harvest fs' results
      end
  end.

(** [sum(1 for r in results if r['success'])] *)
Fixpoint count_success (results : list (gmap string pyval)) : M Z :=
  match results with
  | [] => ret 0
  | r :: rest =>
      s <~ getitem "success" (r !! "success") ;;
      n <~ count_success rest ;;
      ret (if truthy s then 1 + n else n)
  end.

(** [a / b] on ints. *)
Definition truediv (a b : Z) : M Q :=
  if b =? 0 then raise ZeroDivisionError else ret (inject_Z a / inject_Z b)%Q.

(** [ThreadPoolExecutor(max_workers=n)] refuses [n <= 0]. *)
Definition ThreadPoolExecutor (max_workers : Z) : M unit :=
  if max_workers <=? 0
  then raise (ValueError "max_workers must be greater than 0")
  else ret tt.

Definition submit_all (self : AWDFlagSubmitter)
    (world : nat -> Z -> request -> post_outcome) (flags : list pystr)
  : M (list (gmap string pyval)) :=
  match flags with
  | [] => ret []
  | _ :: _ =>
      tell [Log INFO "开始提交任务"] ;;;
      ThreadPoolExecutor (max_workers self) ;;;
      let fs := futures self world flags in
      tell (concat (List.map snd fs)) ;;;
      results <~ harvest fs [] ;;
      n <~ count_success results ;;
      q <~ truediv n (Z.of_nat (length results)) ;;
      let success_rate := (q * 100)%Q in
      tell [Log INFO "提交任务完成"] ;;;
      ret results
  end.

(** ** load_config *)

(** [yaml.safe_load(DEFAULT_CONFIG)]: the mapping that the YAML text of the
    source denotes. *)
Definition DEFAULT_CONFIG : config :=
  {| c_targets := Some [
       {| ip := Some (VStr (py "192.168.1.100"));
          port := Some (VInt 80);
          path := Some (VStr (py "/submit.php"));
          protocol := Some (VStr (py "http"));
          timeout := Some (VInt 3);
          headers := Some [(py "User-Agent", py "AWD-Submitter/1.0")] |};
       {| ip := Some (VStr (py "10.0.0.2"));
          port := Some (VInt 8080);
          path := Some (VStr (py "/api/submit"));
          protocol := Some (VStr (py "https"));
          timeout := Some (VInt 5);
          headers := None |} ];
     c_max_workers := None;
     c_max_retries := None;
     c_verify_ssl := None |}.

(** What the file system holds at a configuration path. *)
Inductive config_file :=
| Absent                        (* [Path(p).exists()] is false *)
| Unreadable (e : exn)          (* it exists; [open] or [yaml.safe_load] raises *)
| Holds (c : config).           (* it exists and parses to [c] *)

Definition load_config (fs : pystr -> config_file) (config_path : option pystr)
  : M config :=
  let fallback :=
    tell [Log WARNING "使用内置默认配置"] ;;;
    ret DEFAULT_CONFIG in
  match config_path with
  | None => fallback
  | Some [] => fallback
  | Some p =>
      match fs p with
      | Absent => fallback
      | Unreadable e => raise e
      | Holds c => ret c
      end
  end.

(** ** The summary line of [main] *)

(** [sum(1 for r in results if r.get('success'))] *)
Definition success_count (results : list (gmap string pyval)) : Z :=
  Z.of_nat (length (List.filter
    (fun r => truthy (get (r !! "success") VNone)) results)).

(** The statistics that the last [print] of [main] formats: success count,
    number of results and percentage. *)
Definition summary (results : list (gmap string pyval)) : M (Z * Z * Q) :=
  let total := Z.of_nat (length results) in
  q <~ truediv (success_count results) total ;;
  ret (success_count results, total, (q * 100)%Q).

(** * The rest of the program: standard input, [get_flags] and [main] *)

(** ** _read_flags_stdin *)

(** A character that the pattern [[,\s]+] consumes: a comma, or a character
    of the class [\s], which for a [str] pattern is [str.isspace]. *)
Definition is_sep (c : N) : bool := (c =? 44)%N || isspace c.

(** [re.split(r'[,\s]+', s)]: the pieces of [s] between the maximal runs of
    separators.  [cur] is the piece being read and [in_sep] tells that the
    previous character was a separator.  A run at the start or at the end
    leaves an empty piece there, as [re.split] does. *)
Fixpoint split_go (s cur : pystr) (in_sep : bool) : list pystr :=
  match s with
  | [] => [cur]
  | c :: s' =>
      if is_sep c
      then (if in_sep then split_go s' [] true
            else cur :: split_go s' [] true)
      else split_go s' (cur ++ [c]) false
  end.

Definition re_split (s : pystr) : list pystr := split_go s [] false.

(** What [sys.stdin] is: a terminal, a pipe that delivers [data], or a pipe
    whose [read()] raises. *)
Inductive stdin_state :=
| Tty
| Piped (data : pystr)
| PipeFails (e : exn).

(** The loop [for item in ...: if self._validate_flag(item): flags.append(item)]. *)
Fixpoint valid_items (items : list pystr) : list pystr :=
  match items with
  | [] => []
  | item :: rest =>
      if _validate_flag item then item :: valid_items rest
      else valid_items rest
  end.

Definition _read_flags_stdin (stdin : stdin_state) : M (list pystr) :=
  match stdin with
  | Tty => ret []
  | PipeFails e => raise e
  | Piped data => ret (valid_items (re_split (strip data)))
  end.

(** ** get_flags *)

(** [path_exists p] is [Path(p).exists()], which answers or, for an error
    other than a missing file, raises; [fs] is what reading a file gives, as
    for [_read_flags_file]. *)
Definition get_flags (path_exists : pystr -> exn + bool)
    (fs : pystr -> file_read) (stdin : stdin_state)
    (input_file : option pystr) : M (list pystr) :=
  let from_stdin :=
    flags <~ _read_flags_stdin stdin ;;
    tell [Log INFO "从标准输入加载flag"] ;;;
    ret flags in
  flags <~ match input_file with
           | None => from_stdin
           | Some [] => from_stdin
           | Some p =>
               match path_exists p with
               | inl e => raise e
               | inr true =>
                   flags <~ _read_flags_file fs p ;;
                   tell [Log INFO "从文件加载flag"] ;;;
                   ret flags
               | inr false => from_stdin
               end
           end ;;
  match flags with
  | [] => tell [Log WARNING "未获取到有效flag"]
  | _ :: _ => ret tt
  end ;;;
  ret flags.

(** ** main *)

(** The parsed command line ([parse_args] itself is [argparse]'s work). *)
Record args := {
  a_config : option pystr;
  a_input_file : option pystr;
  a_output : option pystr;
  a_verbose : bool
}.

(** Everything [main] reads from outside the process. *)
Record environment := {
  config_files : pystr -> config_file;
  path_exists : pystr -> exn + bool;
  flag_files : pystr -> file_read;
  stdin : stdin_state;
  network : nat -> Z -> request -> post_outcome;
  (* opening the output file and dumping the results: an exception, or none *)
  write_output : pystr -> option exn;
  (* writing the summary line to standard output: an exception, or none *)
  print_summary : option exn
}.

(** What a run of [main] does, in order: the events of the engine, the
    results written to the output file, the summary line printed. *)
Inductive action :=
| Engine (e : event)
| Wrote (path : pystr) (results : list (gmap string pyval))
| Printed (success_count total : Z) (percent : Q).

(** The events of an engine computation, as actions of the run. *)
Definition run {A} (m : M A) : (exn + A) * list action :=
  (fst m, List.map Engine (snd m)).

Definition then_ {A B} (m : (exn + A) * list action)
    (k : A -> (exn + B) * list action) : (exn + B) * list action :=
  match m with
  | (inl e, acts) => (inl e, acts)
  | (inr a, acts) => let '(r, acts') := k a in (r, acts ++ acts')
  end.

(** The body of the [try] of [main]; [None] is the early [return]. *)
Definition main_body (a : args) (env : environment)
  : (exn + option (list (gmap string pyval))) * list action :=
  then_ (run (load_config (config_files env) (a_config a))) (fun config =>
  then_ (run (__init__ config)) (fun submitter =>
  then_ (run (get_flags (path_exists env) (flag_files env) (stdin env)
                (a_input_file a))) (fun flags =>
  match flags with
  | [] => run (tell [Log ERROR "未获取到有效flag，退出程序"] ;;; ret None)
  | _ :: _ =>
      then_ (run (submit_all submitter (network env) flags)) (fun results =>
      then_ (match a_output a with
             | None => (inr tt, [])
             | Some [] => (inr tt, [])
             | Some p =>
                 match write_output env p with
                 | Some e => (inl e, [])
                 | None => (inr tt, [Wrote p results;
                                     Engine (Log INFO "结果已保存到文件")])
                 end
             end) (fun _ =>
      then_ (run (summary results)) (fun stats =>
      match print_summary env with
      | Some e => (inl e, [])
      | None =>
          (inr (Some results),
           [Printed (fst (fst stats)) (snd (fst stats)) (snd stats)])
      end)))
  end))).

(** [main]: the exit status of the process and what the run did.  The
    [except Exception] clause logs and calls [sys.exit(1)]; a normal return,
    the early one included, is status 0.  [-v] only lowers the logger's
    threshold, below which the program logs nothing. *)
Definition main (a : args) (env : environment) : Z * list action :=
  match main_body a env with
  | (inr _, acts) => (0, acts)
  | (inl e, acts) => (1, acts ++ [Engine (Log CRITICAL "程序运行异常")])
  end.

(** * Vocabulary of the statements *)

(** ** What the specification says, in its own words *)

(** A run of whitespace (what trimming removes). *)
Definition whitespace (s : pystr) : Prop := Forall (fun c => isspace c = true) s.

(** ASCII case folding, for "case-insensitive". *)
Definition ascii_fold (c : N) : N :=
  (if (65 <=? c) && (c <=? 90) then c + 32 else c)%N.

Definition ci_equal (p w : pystr) : Prop :=
  Forall2 (fun c l => ascii_fold c = ascii_fold l) p w.

(** A hexadecimal digit, of either case. *)
Definition hex_digit (c : N) : Prop :=
  (48 <= c <= 57 \/ 97 <= c <= 102 \/ 65 <= c <= 70)%N.

Definition hex_group (n : nat) (g : pystr) : Prop :=
  length g = n /\ Forall hex_digit g.

(** The canonical shape: the prefix [flag{], hexadecimal groups of 8, 4, 4, 4
    and 12 digits separated by hyphens, the suffix [}]. *)
Definition canonical_flag (t : pystr) : Prop :=
  exists p g1 g2 g3 g4 g5,
    t = p ++ g1 ++ py "-" ++ g2 ++ py "-" ++ g3 ++ py "-" ++ g4 ++ py "-"
          ++ g5 ++ py "}"
    /\ ci_equal p (py "flag{")
    /\ hex_group 8 g1 /\ hex_group 4 g2 /\ hex_group 4 g3 /\ hex_group 4 g4
    /\ hex_group 12 g5.

(** ** Auxiliary notions *)

(** Characters that [re.I] treats as ASCII case folding does. *)
Definition plain (l : N) : Prop :=
  (l < 128)%N /\ tolower l <> 105%N /\ tolower l <> 107%N.

Definition printable (c : N) : Prop := (33 <= c <= 126)%N.

(** The characters of a string that are not whitespace. *)
Definition visible (s : pystr) : pystr :=
  List.filter (fun c => negb (isspace c)) s.

(** ** Results of the retry loop *)

(** The result dict after the failed attempts [attempts], each one storing
    its message under ['error']. *)
Definition record_errors (msg : Z -> pystr) (attempts : list Z)
    (result : gmap string pyval) : gmap string pyval :=
  fold_left (fun r k => <["error" := VStr (msg k)]> r) attempts result.

(** The dict after a response to attempt [k]. *)
Definition record_response (k : Z) (resp : response)
    (result : gmap string pyval) : gmap string pyval :=
  <["status_code" := VInt (status_code resp)]>
  (<["response" := VStr (take 100 (text resp))]>
  (<["attempt" := VInt k]>
  (<["success" := VBool (status_code resp =? 200)]> result))).

Definition failed_attempts (req : request) (attempts : list Z) : list event :=
  flat_map (fun _ => [Post req; Sleep 1]) attempts.

(** The keys that only a response sets. *)
Definition fresh (r : gmap string pyval) : Prop :=
  r !! "success" = Some (VBool false) /\ r !! "attempt" = None
  /\ r !! "status_code" = None /\ r !! "response" = None
  /\ r !! "error" = None.

(** ** The harvest of [submit_all] *)

(** The results that the harvesting loop keeps: those of the futures whose
    task did not raise, in the order of the futures. *)
Definition harvested (fs : list (M (gmap string pyval)))
  : list (gmap string pyval) :=
  omap (fun m => match fst m with inr r => Some r | inl _ => None end) fs.

(** One error record for every future whose task raised. *)
Definition harvest_log (fs : list (M (gmap string pyval))) : list event :=
  flat_map (fun m => match fst m with
                     | inr _ => []
                     | inl _ => [Log ERROR "提交任务异常"]
                     end) fs.

Definition returned {A} (m : M A) : Prop := exists a, fst m = inr a.

(** Every result that [submit_single] returns has a boolean [success]. *)
Definition has_success (r : gmap string pyval) : Prop :=
  exists b, r !! "success" = Some (VBool b).

(** ** Concrete inputs *)

Definition ex_flag : pystr := py "flag{01234567-89ab-cdef-0123-456789abcdef}".

(** The second target of the built-in configuration. *)
Definition ex_target : target :=
  {| ip := Some (VStr (py "10.0.0.2"));
     port := Some (VInt 8080);
     path := Some (VStr (py "/api/submit"));
     protocol := Some (VStr (py "https"));
     timeout := Some (VInt 5);
     headers := None |}.

(** An entry of [targets] without the key [ip]. *)
Definition keyless_target : target :=
  {| ip := None;
     port := Some (VInt 80);
     path := Some (VStr (py "/submit.php"));
     protocol := Some (VStr (py "http"));
     timeout := None;
     headers := None |}.

Definition ex_config (ts : list target) : config :=
  {| c_targets := Some ts;
     c_max_workers := None;
     c_max_retries := None;
     c_verify_ssl := None |}.

Definition ex_submitter (ts : list target) : AWDFlagSubmitter :=
  {| targets := ts; max_workers := 5; max_retries := 2; verify_ssl := false |}.

Definition ex_request : request :=
  {| url := py "https://10.0.0.2:8080/api/submit";
     data_flag := ex_flag;
     req_headers := [];
     req_timeout := VInt 5;
     verify := false |}.

Definition server_error : response :=
  {| status_code := 500; text := py "Internal Server Error" |}.

Definition always_500 : Z -> request -> post_outcome :=
  fun _ _ => Responds server_error.

Definition always_refused : Z -> request -> post_outcome :=
  fun _ _ => Throws (py "Connection refused").

Definition ex_line : pystr := ex_flag ++ [10%N].

(** ** Vocabulary of the further properties *)

Definition is_sleep (e : event) : bool :=
  match e with Sleep _ => true | _ => false end.

(** How many times a trace sleeps. *)
Definition sleeps (evs : list event) : nat := length (List.filter is_sleep evs).

(** What the retry loop leaves in the dict, whatever the network does: either
    no attempt got a response, or the first response was recorded. *)
Inductive loop_outcome (attempts : list Z) (r0 r : gmap string pyval)
    (evs : list event) : Prop :=
| Exhausted :
    r !! "success" = r0 !! "success" ->
    r !! "attempt" = r0 !! "attempt" ->
    r !! "status_code" = r0 !! "status_code" ->
    posts evs = length attempts ->
    sleeps evs = length attempts ->
    loop_outcome attempts r0 r evs
| Answered (k status : Z) :
    In k attempts ->
    r !! "success" = Some (VBool (status =? 200)) ->
    r !! "attempt" = Some (VInt k) ->
    r !! "status_code" = Some (VInt status) ->
    (posts evs <= length attempts)%nat ->
    posts evs = S (sleeps evs) ->
    loop_outcome attempts r0 r evs.

(** ** Piped input *)

(** A run of separators of the piped input: commas and whitespace. *)
Definition separators (s : pystr) : Prop := Forall (fun c => is_sep c = true) s.

(** [f] followed by the other flags, each after its separator run. *)
Fixpoint joined (f : pystr) (rest : list (pystr * pystr)) : pystr :=
  match rest with
  | [] => f
  | (sep, g) :: rest' => f ++ sep ++ joined g rest'
  end.

(** A character that can be part of a token: printable and not a comma. *)
Definition token_char (c : N) : Prop := printable c /\ c <> 44%N.

(** ** Runs of [main] *)

(** How many HTTP requests a run made. *)
Definition requests (acts : list action) : nat :=
  length (List.filter (fun act => match act with
                                  | Engine (Post _) => true
                                  | _ => false
                                  end) acts).

(** The output file, when one is asked for, can be written, and so can the
    summary line. *)
Definition output_written (a : args) (env : environment) : Prop :=
  match a_output a with
  | Some (c :: p) => write_output env (c :: p) = None
  | _ => True
  end
  /\ print_summary env = None.


Definition empty_warning (flags : list pystr) : list event :=
  match flags with
  | [] => [Log WARNING "未获取到有效flag"]
  | _ :: _ => []
  end.

(** The part of [main] that follows a non-empty list of flags. *)
Definition submit_and_report (a : args) (env : environment)
    (submitter : AWDFlagSubmitter) (flags : list pystr)
  : (exn + option (list (gmap string pyval))) * list action :=
  then_ (run (submit_all submitter (network env) flags)) (fun results =>
  then_ (match a_output a with
         | None => (inr tt, [])
         | Some [] => (inr tt, [])
         | Some p =>
             match write_output env p with
             | Some e => (inl e, [])
             | None => (inr tt, [Wrote p results;
                                 Engine (Log INFO "结果已保存到文件")])
             end
         end) (fun _ =>
  then_ (run (summary results)) (fun stats =>
  match print_summary env with
  | Some e => (inl e, [])
  | None =>
      (inr (Some results),
       [Printed (fst (fst stats)) (snd (fst stats)) (snd stats)])
  end))).

(** ** Concrete inputs for the further properties *)

(** The first attempt times out and the second gets a 200. *)
Definition flaky : Z -> request -> post_outcome :=
  fun k _ =>
    if k =? 1 then Throws (py "timed out")
    else Responds {| status_code := 200; text := py "ok" |}.

(** The outcome and the events of the task run against [flaky]. *)
Definition ex_retried : M (gmap string pyval) :=
  submit_single (ex_submitter [ex_target]) flaky ex_target ex_flag.

Definition ex_retried_result : gmap string pyval :=
  match fst ex_retried with
  | inr r => r
  | inl _ => ∅
  end.

(** Two targets, the first without [ip]: its task is dropped. *)
Definition ex_mixed : AWDFlagSubmitter :=
  ex_submitter [keyless_target; ex_target].

Definition ex_mixed_results : list (gmap string pyval) :=
  harvested (futures ex_mixed (fun _ => always_500) [ex_flag]).

(** Piped input with a comma, blanks and a final newline. *)
Definition ex_piped : pystr :=
  py " " ++ joined ex_flag [(py ", ", ex_flag); (py " ", ex_flag)] ++ [10%N].

Definition ex_args : args :=
  {| a_config := None; a_input_file := None; a_output := None;
     a_verbose := false |}.

(** No file anywhere, one flag on the pipe, servers that answer 500. *)
Definition ex_env : environment :=
  {| config_files := fun _ => Absent;
     path_exists := fun _ => inr false;
     flag_files := fun _ => ReadFails (py "No such file or directory");
     stdin := Piped ex_flag;
     network := fun _ => always_500;
     write_output := fun _ => None;
     print_summary := None |}.

Definition ex_default_engine : AWDFlagSubmitter :=
  {| targets := get (c_targets DEFAULT_CONFIG) [];
     max_workers := 5; max_retries := 2; verify_ssl := false |}.

Definition ex_default_results : list (gmap string pyval) :=
  harvested (futures ex_default_engine (fun _ => always_500) [ex_flag]).

(** * Flag validation *)

(** ** Characters *)

Lemma tolower_cases c :
  ((65 <= c <= 90 /\ tolower c = c + 32)
   \/ (c = 304 /\ tolower c = 105)
   \/ (c = 8490 /\ tolower c = 107)
   \/ (~ 65 <= c <= 90 /\ c <> 304 /\ c <> 8490 /\ tolower c = c))%N.
Proof.
  unfold tolower.
  destruct (N.leb_spec 65 c), (N.leb_spec c 90); simpl; try lia;
    destruct (N.eqb_spec c 304); try lia;
    destruct (N.eqb_spec c 8490); lia.
Qed.

Lemma toupper_cases c :
  ((97 <= c <= 122 /\ toupper c = c - 32)
   \/ (c = 305 /\ toupper c = 73)
   \/ (c = 383 /\ toupper c = 83)
   \/ (~ 97 <= c <= 122 /\ c <> 305 /\ c <> 383 /\ toupper c = c))%N.
Proof.
  unfold toupper.
  destruct (N.leb_spec 97 c), (N.leb_spec c 122); simpl; try lia;
    destruct (N.eqb_spec c 305); try lia;
    destruct (N.eqb_spec c 383); lia.
Qed.

Lemma ascii_fold_cases c :
  ((65 <= c <= 90 /\ ascii_fold c = c + 32)
   \/ (~ 65 <= c <= 90 /\ ascii_fold c = c))%N.
Proof.
  unfold ascii_fold.
  destruct (N.leb_spec 65 c), (N.leb_spec c 90); simpl; lia.
Qed.

Lemma in_hex_ranges c :
  in_ranges [(97, 102); (48, 57)]%N c = true
  <-> (97 <= c <= 102 \/ 48 <= c <= 57)%N.
Proof.
  unfold in_ranges; simpl.
  rewrite !orb_true_iff, !andb_true_iff, !N.leb_le. intuition discriminate.
Qed.

Lemma hexset_matches c :
  atom_matches true hexset c = true <-> hex_digit c.
Proof.
  unfold atom_matches, hexset, hex_digit.
  rewrite orb_true_iff, !in_hex_ranges.
  pose proof (tolower_cases c) as Hl.
  pose proof (toupper_cases (tolower c)) as Hu.
  lia.
Qed.

(** On the characters of the pattern, [re.I] is ASCII case folding: the two
    code points outside ASCII that lower-case into ASCII go to [i] and [k],
    which the pattern does not contain. *)
Lemma lit_matches c l :
  (l < 128)%N -> tolower l <> 105%N -> tolower l <> 107%N ->
  atom_matches true (Lit l) c = true <-> ascii_fold c = ascii_fold l.
Proof.
  intros Hl Hi Hk. unfold atom_matches. rewrite N.eqb_eq.
  pose proof (tolower_cases c). pose proof (tolower_cases l).
  pose proof (ascii_fold_cases c). pose proof (ascii_fold_cases l).
  lia.
Qed.

(** ** The matcher *)

Section Matcher.

Variable ic : bool.

Lemma match_rep_app a n g rest :
  length g = n ->
  Forall (fun c => atom_matches ic a c = true) g ->
  match_rep ic a n (g ++ rest) = Some rest.
Proof.
  intros <-. induction 1 as [|c g Hc _ IH]; simpl; [reflexivity|].
  rewrite Hc. exact IH.
Qed.

Lemma match_rep_inv a n : forall s r,
  match_rep ic a n s = Some r ->
  exists g, s = g ++ r /\ length g = n
            /\ Forall (fun c => atom_matches ic a c = true) g.
Proof.
  induction n as [|n IH]; simpl; intros s r H.
  - exists []. injection H as ->. auto.
  - destruct s as [|c s]; [discriminate|].
    destruct (atom_matches ic a c) eqn:Hc; [|discriminate].
    destruct (IH _ _ H) as (g & -> & Hlen & Hg).
    exists (c :: g). simpl. auto.
Qed.

Lemma match_seq_app r1 : forall r2 s,
  match_seq ic (r1 ++ r2) s =
  match match_seq ic r1 s with
  | Some s' => match_seq ic r2 s'
  | None => None
  end.
Proof.
  induction r1 as [|[a n] r1 IH]; simpl; intros r2 s; [reflexivity|].
  destruct (match_rep ic a n s); [apply IH | reflexivity].
Qed.

Lemma match_seq_one a n s :
  match_seq ic [(a, n)] s = match_rep ic a n s.
Proof. cbn [match_seq]. destruct (match_rep ic a n s); reflexivity. Qed.

End Matcher.

Lemma match_lit_app w : forall p rest,
  Forall plain w -> ci_equal p w ->
  match_seq true (List.map (fun c => (Lit c, 1%nat)) w) (p ++ rest) = Some rest.
Proof.
  induction w as [|l w IH]; intros p rest Hw Hp.
  - inversion Hp; subst. reflexivity.
  - inversion Hp as [|c ? p' ? Hc Hp']; subst.
    inversion Hw as [|? ? (Hl & Hi & Hk) Hw']; subst.
    assert (Hm : atom_matches true (Lit l) c = true)
      by (apply lit_matches; assumption).
    cbn [List.map app match_seq match_rep]. rewrite Hm.
    apply IH; assumption.
Qed.

Lemma match_lit_inv w : forall s r,
  Forall plain w ->
  match_seq true (List.map (fun c => (Lit c, 1%nat)) w) s = Some r ->
  exists p, s = p ++ r /\ ci_equal p w.
Proof.
  induction w as [|l w IH]; cbn [List.map match_seq]; intros s r Hw H.
  - exists []. injection H as ->. split; [reflexivity | constructor].
  - inversion Hw as [|? ? (Hl & Hi & Hk) Hw']; subst.
    cbn [match_rep] in H.
    destruct s as [|c s]; [discriminate|].
    destruct (atom_matches true (Lit l) c) eqn:Hc; [|discriminate].
    destruct (IH _ _ Hw' H) as (p & -> & Hp).
    exists (c :: p). split; [reflexivity|].
    constructor; [|exact Hp]. apply lit_matches; assumption.
Qed.

Lemma plain_flag : Forall plain (py "flag{").
Proof. repeat constructor; unfold tolower; simpl; lia || discriminate. Qed.

Lemma plain_dash : Forall plain (py "-").
Proof. repeat constructor; unfold tolower; simpl; lia || discriminate. Qed.

Lemma plain_brace : Forall plain (py "}").
Proof. repeat constructor; unfold tolower; simpl; lia || discriminate. Qed.

(** A symbol that is not a letter only equals itself. *)
Lemma ci_equal_symbol p l :
  (l < 65 \/ 122 < l)%N -> ci_equal p [l] <-> p = [l].
Proof.
  intros Hl. split.
  - intros H. inversion H as [|c ? p' ? Hc Hp]; subst. inversion Hp; subst.
    f_equal.
    pose proof (ascii_fold_cases c). pose proof (ascii_fold_cases l). lia.
  - intros ->. repeat constructor.
Qed.

Lemma hex_group_matches n g :
  hex_group n g <->
  length g = n /\ Forall (fun c => atom_matches true hexset c = true) g.
Proof.
  unfold hex_group. split; intros [Hn Hg]; split; try exact Hn;
    eapply Forall_impl; try exact Hg; intros c Hc; apply hexset_matches, Hc.
Qed.

Ltac peel_lit H Hplain :=
  rewrite match_seq_app in H;
  let E := fresh "E" in
  match type of H with
  | match ?m with _ => _ end = _ => destruct m eqn:E; [|discriminate]
  end;
  let p := fresh "p" in
  let Hp := fresh "Hp" in
  apply (fun s r => match_lit_inv _ s r Hplain) in E;
  destruct E as (p & -> & Hp).

Ltac peel_rep H :=
  rewrite match_seq_app, match_seq_one in H;
  let E := fresh "E" in
  match type of H with
  | match ?m with _ => _ end = _ => destruct m eqn:E; [|discriminate]
  end;
  let g := fresh "g" in
  let Hg := fresh "Hg" in
  apply match_rep_inv in E;
  destruct E as (g & -> & Hg).

Lemma fullmatch_canonical t :
  fullmatch FLAG_REGEX_flags_I FLAG_REGEX t = true <-> canonical_flag t.
Proof.
  unfold fullmatch, FLAG_REGEX_flags_I, FLAG_REGEX, lit.
  split.
  - intros H.
    destruct (match_seq _ _ t) as [[|]|] eqn:E; try discriminate. clear H.
    peel_lit E plain_flag. peel_rep E.
    peel_lit E plain_dash. peel_rep E.
    peel_lit E plain_dash. peel_rep E.
    peel_lit E plain_dash. peel_rep E.
    peel_lit E plain_dash. peel_rep E.
    apply (match_lit_inv _ _ _ plain_brace) in E. destruct E as (q & -> & Hq).
    apply ci_equal_symbol in Hp0, Hp1, Hp2, Hp3, Hq; try (simpl; lia).
    subst. rewrite app_nil_r.
    exists p, g, g0, g1, g2, g3.
    rewrite !hex_group_matches. tauto.
  - intros (p & g1 & g2 & g3 & g4 & g5 & -> & Hp & H1 & H2 & H3 & H4 & H5).
    apply hex_group_matches in H1 as [L1 H1], H2 as [L2 H2], H3 as [L3 H3],
      H4 as [L4 H4], H5 as [L5 H5].
    assert (Hd : ci_equal (py "-") (py "-")) by (apply ci_equal_symbol; simpl; [lia | reflexivity]).
    assert (Hb : ci_equal (py "}") (py "}")) by (apply ci_equal_symbol; simpl; [lia | reflexivity]).
    rewrite match_seq_app, (match_lit_app _ _ _ plain_flag Hp).
    rewrite match_seq_app, match_seq_one, (match_rep_app _ _ _ _ _ L1 H1).
    rewrite match_seq_app, (match_lit_app _ _ _ plain_dash Hd).
    rewrite match_seq_app, match_seq_one, (match_rep_app _ _ _ _ _ L2 H2).
    rewrite match_seq_app, (match_lit_app _ _ _ plain_dash Hd).
    rewrite match_seq_app, match_seq_one, (match_rep_app _ _ _ _ _ L3 H3).
    rewrite match_seq_app, (match_lit_app _ _ _ plain_dash Hd).
    rewrite match_seq_app, match_seq_one, (match_rep_app _ _ _ _ _ L4 H4).
    rewrite match_seq_app, (match_lit_app _ _ _ plain_dash Hd).
    rewrite match_seq_app, match_seq_one, (match_rep_app _ _ _ _ _ L5 H5).
    rewrite <- (app_nil_r (py "}")).
    rewrite (match_lit_app _ _ _ plain_brace Hb). reflexivity.
Qed.

(** ** Trimming *)

Lemma lstrip_whitespace l s : whitespace l -> lstrip (l ++ s) = lstrip s.
Proof. induction 1 as [|c l Hc _ IH]; simpl; [|rewrite Hc]; auto. Qed.

Lemma lstrip_fixed c s : isspace c = false -> lstrip (c :: s) = c :: s.
Proof. intros H. simpl. rewrite H. reflexivity. Qed.

Lemma lstrip_decompose s : exists l, s = l ++ lstrip s /\ whitespace l.
Proof.
  induction s as [|c s (l & Hs & Hl)]; simpl.
  - exists []. split; [reflexivity | constructor].
  - destruct (isspace c) eqn:Hc.
    + exists (c :: l). split; [simpl; congruence | constructor; assumption].
    + exists []. split; [reflexivity | constructor].
Qed.

Lemma whitespace_rev s : whitespace s -> whitespace (rev s).
Proof. unfold whitespace. rewrite !Forall_forall. intros H c Hc. apply H, list_elem_of_In, in_rev, list_elem_of_In, Hc. Qed.

Lemma rstrip_whitespace s r : whitespace r -> rstrip (s ++ r) = rstrip s.
Proof.
  intros H. unfold rstrip. rewrite rev_app_distr, lstrip_whitespace; auto using whitespace_rev.
Qed.

Lemma rstrip_fixed s c : isspace c = false -> rstrip (s ++ [c]) = s ++ [c].
Proof.
  intros H. unfold rstrip. rewrite rev_app_distr.
  change (rev [c] ++ rev s) with (c :: rev s).
  rewrite lstrip_fixed by exact H.
  change (c :: rev s) with (rev [c] ++ rev s).
  rewrite <- rev_app_distr. apply rev_involutive.
Qed.

Lemma rstrip_decompose s : exists r, s = rstrip s ++ r /\ whitespace r.
Proof.
  unfold rstrip. destruct (lstrip_decompose (rev s)) as (l & Hs & Hl).
  exists (rev l). split; [|apply whitespace_rev, Hl].
  rewrite <- rev_app_distr, <- Hs, rev_involutive. reflexivity.
Qed.

Lemma strip_decompose s :
  exists l r, s = l ++ strip s ++ r /\ whitespace l /\ whitespace r.
Proof.
  unfold strip. destruct (lstrip_decompose s) as (l & Hs & Hl).
  destruct (rstrip_decompose (lstrip s)) as (r & Ht & Hr).
  exists l, r. rewrite <- Ht. auto.
Qed.

(** Trimming finds a token that neither starts nor ends with whitespace. *)
Lemma strip_exact l r c d m :
  whitespace l -> whitespace r -> isspace c = false -> isspace d = false ->
  forall t, t = c :: m -> (exists m', t = m' ++ [d]) ->
  strip (l ++ t ++ r) = t.
Proof.
  intros Hl Hr Hc Hd t Ht (m' & Ht'). unfold strip.
  rewrite lstrip_whitespace by exact Hl.
  rewrite Ht at 1. change ((c :: m) ++ r) with (c :: (m ++ r)).
  rewrite lstrip_fixed by exact Hc.
  change (c :: (m ++ r)) with ((c :: m) ++ r). rewrite <- Ht.
  rewrite rstrip_whitespace by exact Hr.
  rewrite Ht'. apply rstrip_fixed, Hd.
Qed.

(** ** Canonical flags are 42 visible characters *)

Lemma printable_isspace c : printable c -> isspace c = false.
Proof.
  unfold printable, isspace. intros H.
  repeat match goal with
  | |- context [(?a <=? ?b)%N] => destruct (N.leb_spec a b); try lia
  | |- context [(?a =? ?b)%N] => destruct (N.eqb_spec a b); try lia
  end; reflexivity.
Qed.

Lemma hex_printable c : hex_digit c -> printable c.
Proof. unfold hex_digit, printable. lia. Qed.

Lemma ci_printable p w : ci_equal p w -> Forall printable w -> Forall printable p.
Proof.
  induction 1 as [|c l p w Hc _ IH]; intros Hw; [constructor|].
  inversion Hw as [|? ? Hl Hw']; subst. constructor; [|auto].
  unfold printable in *.
  pose proof (ascii_fold_cases c). pose proof (ascii_fold_cases l). lia.
Qed.

(** The characters of a literal of the pattern are printable. *)
Ltac printable_literal :=
  repeat constructor; unfold printable; simpl; lia.

Lemma canonical_printable t : canonical_flag t -> Forall printable t.
Proof.
  intros (p & g1 & g2 & g3 & g4 & g5 & -> & Hp & H1 & H2 & H3 & H4 & H5).
  assert (Hhex : forall n g, hex_group n g -> Forall printable g).
  { intros n g [_ Hg]. eapply Forall_impl; [exact Hg | apply hex_printable]. }
  assert (Hdash : Forall printable (py "-")) by printable_literal.
  assert (Hbrace : Forall printable (py "}")) by printable_literal.
  assert (Hflag : Forall printable p).
  { eapply ci_printable; [exact Hp | printable_literal]. }
  repeat apply Forall_app_2; eauto.
Qed.

Lemma canonical_length t : canonical_flag t -> length t = 42%nat.
Proof.
  intros (p & g1 & g2 & g3 & g4 & g5 & -> & Hp & H1 & H2 & H3 & H4 & H5).
  apply Forall2_length in Hp.
  destruct H1 as [L1 _], H2 as [L2 _], H3 as [L3 _], H4 as [L4 _], H5 as [L5 _].
  rewrite !length_app, Hp, L1, L2, L3, L4, L5. reflexivity.
Qed.

Lemma visible_app s1 s2 : visible (s1 ++ s2) = visible s1 ++ visible s2.
Proof. apply List.filter_app. Qed.

Lemma visible_whitespace s : whitespace s -> visible s = [].
Proof. induction 1 as [|c s Hc _ IH]; simpl; [|rewrite Hc]; auto. Qed.

Lemma visible_printable s : Forall printable s -> visible s = s.
Proof.
  induction 1 as [|c s Hc _ IH]; simpl; [reflexivity|].
  rewrite (printable_isspace _ Hc). simpl. congruence.
Qed.

Lemma visible_length s : (length (visible s) <= length s)%nat.
Proof. apply List.filter_length_le. Qed.

(** ** The validator *)

Lemma validate_iff s :
  _validate_flag s = true <->
  exists l t r, s = l ++ t ++ r /\ whitespace l /\ whitespace r
                /\ canonical_flag t.
Proof.
  unfold _validate_flag. rewrite fullmatch_canonical. split.
  - intros H. destruct (strip_decompose s) as (l & r & Hs & Hl & Hr).
    exists l, (strip s), r. auto.
  - intros (l & t & r & -> & Hl & Hr & Ht).
    enough (strip (l ++ t ++ r) = t) as -> by exact Ht.
    pose proof (canonical_printable _ Ht) as Hpr.
    pose proof (canonical_length _ Ht) as Hlen.
    destruct t as [|c m]; [discriminate|].
    destruct (exists_last (l := c :: m)) as (m' & d & Hm'); [discriminate|].
    assert (Hc : isspace c = false).
    { apply printable_isspace. inversion Hpr; assumption. }
    assert (Hd : isspace d = false).
    { apply printable_isspace. rewrite Hm' in Hpr.
      apply Forall_app in Hpr as [_ Hpr]. inversion Hpr; assumption. }
    apply (strip_exact l r c d m Hl Hr Hc Hd (c :: m) eq_refl).
    exists m'. exact Hm'.
Qed.

Lemma validate_visible s :
  _validate_flag s = true -> length (visible s) = 42%nat.
Proof.
  intros H. apply validate_iff in H as (l & t & r & -> & Hl & Hr & Ht).
  rewrite !visible_app, (visible_whitespace _ Hl), (visible_whitespace _ Hr).
  rewrite (visible_printable _ (canonical_printable _ Ht)), app_nil_r.
  apply canonical_length, Ht.
Qed.

Lemma validate_false_visible s :
  length (visible s) <> 42%nat -> _validate_flag s = false.
Proof.
  intros H. destruct (_validate_flag s) eqn:E; [|reflexivity].
  apply validate_visible in E. contradiction.
Qed.

Lemma visible_exists s :
  Exists (fun c => isspace c = false) s -> (1 <= length (visible s))%nat.
Proof.
  induction 1 as [c s Hc | c s _ IH]; simpl.
  - rewrite Hc. simpl. lia.
  - destruct (isspace c); simpl; lia.
Qed.

Lemma visible_take_drop t i j :
  Forall printable t -> visible (take i t ++ drop j t) = take i t ++ drop j t.
Proof.
  intros H. apply visible_printable, Forall_app_2.
  - apply Forall_take, H.
  - apply Forall_drop, H.
Qed.

(** C3. The flag validator accepts a string exactly when it is a canonical
    flag ([flag{], hexadecimal groups of 8, 4, 4, 4 and 12 digits separated by
    hyphens, [}], letters of either case) with whitespace around it and
    nothing else.  In particular a string that contains a canonical flag next
    to any visible character is rejected, and so is a canonical flag with one
    character removed or one visible character inserted. *)
Theorem validate_flag_exact :
  (forall s,
     _validate_flag s = true <->
     exists l t r, s = l ++ t ++ r /\ whitespace l /\ whitespace r
                   /\ canonical_flag t)
  /\ (forall t x y,
        canonical_flag t -> Exists (fun c => isspace c = false) (x ++ y) ->
        _validate_flag (x ++ t ++ y) = false)
  /\ (forall t i,
        canonical_flag t -> (i < 42)%nat ->
        _validate_flag (take i t ++ drop (S i) t) = false)
  /\ (forall t i c,
        canonical_flag t -> isspace c = false ->
        _validate_flag (take i t ++ c :: drop i t) = false).
Proof.
  split; [exact validate_iff|]. repeat split.
  - intros t x y Ht Hxy. apply validate_false_visible.
    rewrite !visible_app, !length_app.
    rewrite (visible_printable _ (canonical_printable _ Ht)).
    rewrite (canonical_length _ Ht).
    apply visible_exists in Hxy. rewrite visible_app, length_app in Hxy. lia.
  - intros t i Ht Hi. apply validate_false_visible.
    rewrite (visible_take_drop _ _ _ (canonical_printable _ Ht)).
    pose proof (canonical_length _ Ht) as Hlen.
    rewrite length_app, length_take, length_drop. lia.
  - intros t i c Ht Hc. apply validate_false_visible.
    change (c :: drop i t) with ([c] ++ drop i t).
    rewrite !visible_app.
    rewrite (visible_printable (take i t)), (visible_printable (drop i t)).
    + simpl. rewrite Hc. simpl.
      pose proof (canonical_length _ Ht) as Hlen.
      rewrite length_app. simpl. rewrite length_take, length_drop. lia.
    + apply Forall_drop, canonical_printable, Ht.
    + apply Forall_take, canonical_printable, Ht.
Qed.

Lemma canonical_example :
  canonical_flag (py "flag{01234567-89ab-CDEF-0123-456789abcdef}").
Proof. apply fullmatch_canonical. reflexivity. Qed.

Lemma validate_flag_exact_witness :
  _validate_flag (py "flag{01234567-89ab-CDEF-0123-456789abcdef}extra") = false.
Proof.
  apply (proj1 (proj2 validate_flag_exact)
           (py "flag{01234567-89ab-CDEF-0123-456789abcdef}") [] (py "extra")
           canonical_example).
  constructor. reflexivity.
Defined.

(** * The retry loop *)

(** What [bind] does once the first computation is known. *)
Lemma bind_ok {A B} (a : A) evs (k : A -> M B) :
  bind (inr a, evs) k = (fst (k a), evs ++ snd (k a)).
Proof. unfold bind. destruct (k a); reflexivity. Qed.

Lemma bind_pure {A B} (a : A) (k : A -> M B) : bind (inr a, []) k = k a.
Proof. unfold bind. destruct (k a); reflexivity. Qed.

Lemma bind_raise {A B} e evs (k : A -> M B) :
  bind (inl e, evs) k = (inl e, evs).
Proof. reflexivity. Qed.

Section RetryLoop.

Variable post : Z -> request -> post_outcome.
Variable req : request.
Variable msg : Z -> pystr.

Lemma retry_loop_throws : forall attempts result,
  (forall k, In k attempts -> post k req = Throws (msg k)) ->
  retry_loop post req attempts result
  = (inr (record_errors msg attempts result), failed_attempts req attempts).
Proof.
  induction attempts as [|a rest IH]; intros result H; [reflexivity|].
  cbn [retry_loop]. rewrite (H a) by (left; reflexivity).
  unfold tell. rewrite !bind_ok.
  rewrite IH by (intros k Hk; apply H; right; exact Hk).
  reflexivity.
Qed.

Lemma retry_loop_responds resp : forall pre k rest result,
  (forall j, In j pre -> post j req = Throws (msg j)) ->
  post k req = Responds resp ->
  retry_loop post req (pre ++ k :: rest) result
  = (inr (record_response k resp (record_errors msg pre result)),
     failed_attempts req pre ++ [Post req]).
Proof.
  induction pre as [|a pre IH]; intros k rest result H Hk.
  - cbn [app retry_loop]. rewrite Hk. reflexivity.
  - cbn [app retry_loop]. rewrite (H a) by (left; reflexivity).
    unfold tell. rewrite !bind_ok.
    rewrite (IH k rest) by (auto; intros j Hj; apply H; right; exact Hj).
    reflexivity.
Qed.

End RetryLoop.

Lemma record_errors_other msg key : forall attempts result,
  key <> "error" ->
  record_errors msg attempts result !! key = result !! key.
Proof.
  induction attempts as [|a rest IH]; intros result H; [reflexivity|].
  unfold record_errors in *. cbn [fold_left]. rewrite IH by exact H.
  apply lookup_insert_ne. congruence.
Qed.

Lemma record_errors_last msg pre a result :
  record_errors msg (pre ++ [a]) result !! "error" = Some (VStr (msg a)).
Proof.
  unfold record_errors. rewrite fold_left_app. cbn [fold_left].
  apply lookup_insert_eq.
Qed.

Lemma posts_app evs1 evs2 : posts (evs1 ++ evs2) = (posts evs1 + posts evs2)%nat.
Proof. unfold posts. rewrite List.filter_app, length_app. reflexivity. Qed.

Lemma posts_failed_attempts req attempts :
  posts (failed_attempts req attempts) = length attempts.
Proof.
  induction attempts as [|a rest IH]; [reflexivity|].
  unfold failed_attempts in *. cbn [flat_map]. rewrite posts_app, IH. reflexivity.
Qed.

(** [range(1, n + 1)] ends in [n] and splits at any [k] in it. *)
Lemma range_last n : 1 <= n -> range 1 (n + 1) = range 1 n ++ [n].
Proof.
  intros H. unfold range.
  replace (n + 1 - 1) with (Z.of_nat (S (Z.to_nat (n - 1)))) by lia.
  rewrite seqZ_S. f_equal; [f_equal; lia | f_equal; lia].
Qed.

Lemma range_split n k :
  1 <= k <= n -> range 1 (n + 1) = range 1 k ++ k :: range (k + 1) (n + 1).
Proof.
  intros H. unfold range.
  replace (n + 1 - 1) with ((k - 1) + (n - k + 1)) by lia.
  rewrite seqZ_app by lia. f_equal.
  rewrite seqZ_cons by lia. f_equal; [lia|]. f_equal; lia.
Qed.

Lemma range_empty lo hi : hi <= lo -> range lo hi = [].
Proof. intros H. unfold range. apply seqZ_nil. lia. Qed.

Lemma in_range lo hi k : In k (range lo hi) <-> lo <= k < hi.
Proof.
  unfold range. rewrite <- list_elem_of_In, elem_of_seqZ. lia.
Qed.

Lemma length_range lo hi : length (range lo hi) = Z.to_nat (hi - lo).
Proof. apply length_seqZ. Qed.

(** * submit_single *)

(** A target from which the request can be built has the four keys that
    [submit_single] indexes, so the initial dict is built as well. *)
Lemma submit_single_unfold self post target flag req evs0 :
  request_of self target flag = (inr req, evs0) ->
  exists r0,
    fresh r0 /\
    initial_result target flag = (inr r0, []) /\
    submit_single self post target flag
    = bind (retry_loop post req (range 1 (max_retries self + 1)) r0)
           (fun result => tell [Log INFO "提交结果"] ;;; ret result).
Proof.
  intros Hreq.
  assert (exists vip vport, ip target = Some vip /\ port target = Some vport)
    as (vip & vport & Hip & Hport).
  { unfold request_of in Hreq.
    destruct (protocol target), (ip target), (port target);
      try discriminate; eauto. }
  assert (evs0 = []) as ->.
  { unfold request_of in Hreq.
    destruct (protocol target), (ip target), (port target), (path target);
      try discriminate.
    apply (f_equal snd) in Hreq. symmetry. exact Hreq. }
  unfold submit_single, initial_result. rewrite Hreq, Hip, Hport.
  cbn [getitem]. unfold ret.
  repeat (rewrite bind_pure; cbv beta).
  eexists. split; [|split; reflexivity].
  repeat split; reflexivity.
Qed.

(** C2 (amended). When the target has the keys [submit_single] indexes and
    every attempt raises, [submit_single] calls [requests.post] exactly
    [max_retries] times (not at all when [max_retries] is below one) and
    returns a result with [success] false and [error] holding the message of
    the last exception (no [error] when there was no attempt); that result
    has no [attempt], [status_code] or [response] key. *)
Theorem submit_single_exhausted self post target flag req evs0 msg :
  request_of self target flag = (inr req, evs0) ->
  (forall k, 1 <= k <= max_retries self -> post k req = Throws (msg k)) ->
  exists result evs,
    submit_single self post target flag = (inr result, evs)
    /\ Z.of_nat (posts evs) = Z.max 0 (max_retries self)
    /\ result !! "success" = Some (VBool false)
    /\ result !! "error"
       = (if 1 <=? max_retries self
          then Some (VStr (msg (max_retries self)))
          else None)
    /\ result !! "attempt" = None
    /\ result !! "status_code" = None
    /\ result !! "response" = None.
Proof.
  intros Hreq Hpost.
  destruct (submit_single_unfold self post target flag req evs0 Hreq)
    as (r0 & (Hs & Ha & Hc & Hr & He) & _ & ->).
  rewrite (retry_loop_throws post req msg)
    by (intros k Hk; apply Hpost; apply in_range in Hk; lia).
  unfold tell, ret. rewrite !bind_ok. cbn [fst snd].
  eexists _, _. split; [reflexivity|].
  split.
  { rewrite !posts_app, posts_failed_attempts, length_range. cbn. lia. }
  split; [rewrite record_errors_other by discriminate; exact Hs|].
  split; [|repeat split; rewrite record_errors_other by discriminate;
            assumption].
  destruct (Z.leb_spec 1 (max_retries self)) as [Hn | Hn].
  - rewrite range_last by exact Hn. apply record_errors_last.
  - rewrite range_empty by lia. exact He.
Qed.

(** C4. When the attempts before attempt [k] raise and attempt [k] gets a
    response, [submit_single] stops there: it has called [requests.post]
    exactly [k] times, and the result records [success = (status_code == 200)],
    [attempt = k], the status code and the first 100 characters of the
    body. *)
Theorem submit_single_response self post target flag req evs0 msg k resp :
  request_of self target flag = (inr req, evs0) ->
  1 <= k <= max_retries self ->
  (forall j, 1 <= j < k -> post j req = Throws (msg j)) ->
  post k req = Responds resp ->
  exists result evs,
    submit_single self post target flag = (inr result, evs)
    /\ Z.of_nat (posts evs) = k
    /\ result !! "success" = Some (VBool (status_code resp =? 200))
    /\ result !! "attempt" = Some (VInt k)
    /\ result !! "status_code" = Some (VInt (status_code resp))
    /\ result !! "response" = Some (VStr (take 100 (text resp))).
Proof.
  intros Hreq Hk Hpre Hpost.
  destruct (submit_single_unfold self post target flag req evs0 Hreq)
    as (r0 & _ & _ & ->).
  rewrite (range_split _ k) by exact Hk.
  rewrite (retry_loop_responds post req msg resp)
    by (auto; intros j Hj; apply Hpre; apply in_range in Hj; lia).
  unfold tell, ret. rewrite !bind_ok. cbn [fst snd].
  eexists _, _. split; [reflexivity|].
  split.
  { rewrite !posts_app, posts_failed_attempts, length_range. cbn. lia. }
  unfold record_response. repeat split.
  - rewrite !lookup_insert_ne by discriminate. apply lookup_insert_eq.
  - rewrite !lookup_insert_ne by discriminate. apply lookup_insert_eq.
  - apply lookup_insert_eq.
  - rewrite !lookup_insert_ne by discriminate. apply lookup_insert_eq.
Qed.

(** * submit_all *)

Lemma harvest_spec : forall fs results,
  harvest fs results = (inr (results ++ harvested fs), harvest_log fs).
Proof.
  induction fs as [|[[e|r] evs] fs IH]; intros results; cbn [harvest fst].
  - unfold ret, harvested. cbn. rewrite app_nil_r. reflexivity.
  - unfold tell. rewrite bind_ok, IH. reflexivity.
  - rewrite IH, <- app_assoc. reflexivity.
Qed.

Lemma harvested_length fs : (length (harvested fs) <= length fs)%nat.
Proof.
  unfold harvested.
  induction fs as [|[[e|r] evs] fs IH]; cbn [omap list_omap fst length] in *; lia.
Qed.

Lemma harvested_posts fs : posts (harvest_log fs) = 0%nat.
Proof.
  unfold harvest_log.
  induction fs as [|[[e|r] evs] fs IH]; cbn [flat_map fst app]; auto.
Qed.

Lemma harvested_all fs :
  Forall returned fs ->
  length (harvested fs) = length fs
  /\ forall k m, fs !! k = Some m ->
       exists r, fst m = inr r /\ harvested fs !! k = Some r.
Proof.
  induction 1 as [|m fs [r Hr] _ [IHlen IH]].
  - split; [reflexivity|]. intros k m Hk. discriminate.
  - unfold harvested in *. cbn [omap list_omap]. rewrite Hr. cbn. split; [lia|].
    intros [|k] m' Hk; cbn in Hk.
    + injection Hk as <-. exists r. auto.
    + apply IH, Hk.
Qed.

Lemma harvested_some fs m r :
  In m fs -> fst m = inr r -> harvested fs <> [].
Proof.
  induction fs as [|m' fs IH]; intros Hin Hr; [contradiction|].
  unfold harvested in *. cbn [omap list_omap].
  destruct Hin as [-> | Hin].
  - rewrite Hr. discriminate.
  - destruct (fst m'); [apply IH; assumption | discriminate].
Qed.

Lemma harvested_none fs :
  Forall (fun m => exists e, fst m = inl e) fs -> harvested fs = [].
Proof.
  induction 1 as [|m fs [e He] _ IH]; [reflexivity|].
  unfold harvested in *. cbn [omap list_omap]. rewrite He. exact IH.
Qed.

Lemma retry_loop_success post req : forall attempts result,
  has_success result ->
  exists r evs, retry_loop post req attempts result = (inr r, evs)
                /\ has_success r.
Proof.
  induction attempts as [|a rest IH]; intros result [b Hb]; cbn [retry_loop].
  - exists result, []. split; [reflexivity | exists b; exact Hb].
  - destruct (post a req) as [resp | msg].
    + unfold tell, ret. rewrite bind_ok. cbn [fst snd].
      eexists _, _. split; [reflexivity|].
      eexists. rewrite !lookup_insert_ne by discriminate. apply lookup_insert_eq.
    + destruct (IH (<["error" := VStr msg]> result)) as (r & evs & Hloop & Hr).
      { exists b. rewrite lookup_insert_ne by discriminate. exact Hb. }
      unfold tell. rewrite !bind_ok, Hloop. cbn [fst snd].
      eexists _, _. split; [reflexivity | exact Hr].
Qed.

Lemma submit_single_success self post target flag r evs :
  submit_single self post target flag = (inr r, evs) -> has_success r.
Proof.
  unfold submit_single, initial_result.
  destruct (ip target) as [vip|]; [|discriminate].
  destruct (port target) as [vport|]; [|discriminate].
  cbn [getitem]. unfold ret. repeat (rewrite bind_pure; cbv beta).
  destruct (request_of self target flag) as [[e|req] evs0]; [discriminate|].
  rewrite bind_ok. cbv beta.
  match goal with |- context [retry_loop post req ?a ?r0] =>
    destruct (retry_loop_success post req a r0) as (r' & evs' & -> & Hr')
  end.
  { exists false. reflexivity. }
  unfold tell. rewrite !bind_ok. cbn [fst snd]. intros [= <- _]. exact Hr'.
Qed.

Lemma count_success_defined results :
  Forall has_success results -> exists n, count_success results = (inr n, []).
Proof.
  induction 1 as [|r rest [b Hb] _ [n IH]]; cbn [count_success].
  - exists 0. reflexivity.
  - rewrite Hb, IH. cbn [getitem]. unfold ret.
    repeat (rewrite bind_pure; cbv beta). eexists. reflexivity.
Qed.

Section SubmitAll.

Variable self : AWDFlagSubmitter.
Variable world : nat -> Z -> request -> post_outcome.

Lemma futures_lookup flags k m :
  futures self world flags !! k = Some m ->
  exists t f, tasks self flags !! k = Some (t, f)
              /\ m = submit_single self (world k) t f.
Proof.
  unfold futures. rewrite list_lookup_imap.
  destruct (tasks self flags !! k) as [[t f]|]; [|discriminate].
  intros [= <-]. exists t, f. auto.
Qed.

Lemma harvested_inv fs r :
  In r (harvested fs) -> exists m, In m fs /\ fst m = inr r.
Proof.
  unfold harvested. induction fs as [|m fs IH]; cbn [omap list_omap].
  - contradiction.
  - destruct (fst m) as [e|r'] eqn:Hm.
    + intros H. destruct (IH H) as (m' & Hin & Hr). exists m'. split; [right|]; auto.
    + intros [<- | H].
      * exists m. split; [left|]; auto.
      * destruct (IH H) as (m' & Hin & Hr). exists m'. split; [right|]; auto.
Qed.

Lemma futures_success flags :
  Forall has_success (harvested (futures self world flags)).
Proof.
  apply Forall_forall. intros r Hr.
  apply list_elem_of_In, harvested_inv in Hr as (m & Hm & Hfst).
  apply list_elem_of_In, list_elem_of_lookup in Hm as [k Hk].
  apply futures_lookup in Hk as (t & f & _ & ->).
  destruct (submit_single self (world k) t f) as [res evs] eqn:E.
  cbn in Hfst. subst res. eapply submit_single_success, E.
Qed.

(** A run of [submit_all] on a non-empty flag list with a pool that can be
    created: the tasks run, the harvest keeps the results of those that did
    not raise, and the success rate is computed over the kept results. *)
Lemma submit_all_run flags :
  flags <> [] -> 0 < max_workers self ->
  exists evs,
    posts evs = posts (concat (List.map snd (futures self world flags)))
    /\ submit_all self world flags =
       match harvested (futures self world flags) with
       | [] => (inl ZeroDivisionError, evs)
       | _ :: _ => (inr (harvested (futures self world flags)),
                    evs ++ [Log INFO "提交任务完成"])
       end.
Proof.
  intros Hflags Hw. destruct flags as [|f0 flags]; [contradiction|].
  unfold submit_all, ThreadPoolExecutor.
  destruct (Z.leb_spec (max_workers self) 0) as [|_]; [lia|].
  set (fs := futures self world (f0 :: flags)).
  destruct (count_success_defined _ (futures_success (f0 :: flags)))
    as [n Hn]. fold fs in Hn.
  unfold tell, ret. rewrite !bind_ok. cbn [fst snd].
  rewrite harvest_spec. cbn [app]. rewrite !bind_ok. cbn [fst snd].
  rewrite Hn, !bind_ok. cbn [fst snd]. unfold truediv.
  exists ([Log INFO "开始提交任务"] ++ [] ++ concat (List.map snd fs) ++ harvest_log fs ++ []).
  split.
  { rewrite !posts_app, harvested_posts. cbn. lia. }
  destruct (harvested fs) as [|r rs] eqn:Hh.
  - reflexivity.
  - replace (Z.of_nat (length (r :: rs)) =? 0) with false
      by (symmetry; apply Z.eqb_neq; cbn [length]; lia).
    unfold ret. rewrite !bind_ok. cbn [fst snd].
    rewrite <- !app_assoc. reflexivity.
Qed.

Lemma submit_all_no_pool flags :
  flags <> [] -> max_workers self <= 0 ->
  submit_all self world flags
  = (inl (ValueError "max_workers must be greater than 0"),
     [Log INFO "开始提交任务"]).
Proof.
  intros Hflags Hw. destruct flags as [|f0 flags]; [contradiction|].
  unfold submit_all, ThreadPoolExecutor.
  destruct (Z.leb_spec (max_workers self) 0) as [_|]; [|lia].
  reflexivity.
Qed.

(** The task list is the cross product, flag by flag. *)
Lemma tasks_length flags :
  length (tasks self flags) = (length flags * length (targets self))%nat.
Proof.
  unfold tasks. induction flags as [|f flags IH]; [reflexivity|].
  cbn [flat_map length]. rewrite length_app, List.length_map, IH. lia.
Qed.

Lemma tasks_lookup : forall flags i j f t,
  flags !! i = Some f -> targets self !! j = Some t ->
  tasks self flags !! (i * length (targets self) + j)%nat = Some (t, f).
Proof.
  unfold tasks. induction flags as [|f0 flags IH]; intros i j f t Hi Hj.
  - discriminate.
  - cbn [flat_map]. destruct i as [|i].
    + injection Hi as ->. cbn [Nat.mul Nat.add].
      rewrite lookup_app_l
        by (rewrite List.length_map; eapply lookup_lt_Some, Hj).
      change (List.map ?g ?l) with (g <$> l).
      rewrite list_lookup_fmap, Hj. reflexivity.
    + cbn in Hi. rewrite lookup_app_r by (rewrite List.length_map; lia).
      rewrite List.length_map.
      replace (S i * length (targets self) + j - length (targets self))%nat
        with (i * length (targets self) + j)%nat by lia.
      apply IH; assumption.
Qed.

Lemma tasks_lookup_inv flags k t f :
  tasks self flags !! k = Some (t, f) ->
  exists i j, (k = i * length (targets self) + j)%nat
              /\ flags !! i = Some f /\ targets self !! j = Some t.
Proof.
  unfold tasks. revert k. induction flags as [|f0 flags IH]; intros k Hk.
  - discriminate.
  - cbn [flat_map] in Hk.
    destruct (Nat.lt_ge_cases k (length (targets self))) as [Hlt | Hge].
    + rewrite lookup_app_l in Hk by (rewrite List.length_map; exact Hlt).
      change (List.map ?g ?l) with (g <$> l) in Hk.
      rewrite list_lookup_fmap in Hk.
      destruct (targets self !! k) as [t'|] eqn:Ht; [|discriminate].
      injection Hk as -> ->. exists 0%nat, k. auto.
    + rewrite lookup_app_r in Hk by (rewrite List.length_map; exact Hge).
      rewrite List.length_map in Hk.
      destruct (IH _ Hk) as (i & j & Hij & Hi & Hj).
      exists (S i), j. split; [lia | auto].
Qed.

Lemma futures_returned flags :
  (forall i j f t,
     flags !! i = Some f -> targets self !! j = Some t ->
     returned (submit_single self
                 (world (i * length (targets self) + j)%nat) t f)) ->
  Forall returned (futures self world flags).
Proof.
  intros H. apply Forall_lookup. intros k m Hk.
  apply futures_lookup in Hk as (t & f & Hk & ->).
  apply tasks_lookup_inv in Hk as (i & j & -> & Hi & Hj). eauto.
Qed.

Lemma futures_length flags :
  length (futures self world flags)
  = (length flags * length (targets self))%nat.
Proof. unfold futures. rewrite length_imap. apply tasks_length. Qed.

(** If every task raises, the harvest keeps nothing and the success rate
    divides by zero. *)
Lemma submit_all_all_dropped flags :
  flags <> [] -> 0 < max_workers self ->
  (forall k t f, tasks self flags !! k = Some (t, f) ->
     exists e, fst (submit_single self (world k) t f) = inl e) ->
  exists evs, submit_all self world flags = (inl ZeroDivisionError, evs).
Proof.
  intros Hflags Hw Hall.
  destruct (submit_all_run flags Hflags Hw) as (evs & _ & ->).
  rewrite harvested_none; [eauto|].
  apply Forall_lookup. intros k m Hk.
  apply futures_lookup in Hk as (t & f & Hk & ->). eauto.
Qed.

(** As soon as one task returns, the run is not aborted: the tasks that
    raised are left out and the others are returned. *)
Lemma submit_all_some_kept flags k t f r :
  0 < max_workers self ->
  tasks self flags !! k = Some (t, f) ->
  fst (submit_single self (world k) t f) = inr r ->
  exists evs,
    submit_all self world flags
    = (inr (harvested (futures self world flags)), evs).
Proof.
  intros Hw Hk Hr.
  assert (Hflags : flags <> []) by (intros ->; discriminate).
  destruct (submit_all_run flags Hflags Hw) as (evs & _ & ->).
  assert (Hne : harvested (futures self world flags) <> []).
  { apply (harvested_some _ (submit_single self (world k) t f) r); [|exact Hr].
    apply list_elem_of_In, list_elem_of_lookup. exists k.
    unfold futures. rewrite list_lookup_imap, Hk. reflexivity. }
  destruct (harvested (futures self world flags)); [contradiction|].
  eexists. reflexivity.
Qed.

(** Whatever [submit_all] returns is the harvest of the futures: at most one
    result per task, and never an empty list unless there was no flag. *)
Lemma submit_all_returns flags results evs :
  submit_all self world flags = (inr results, evs) ->
  (flags = [] /\ results = [])
  \/ (flags <> [] /\ results <> []
      /\ results = harvested (futures self world flags)).
Proof.
  intros H. destruct flags as [|f0 flags].
  - left. injection H as <- _. auto.
  - right. split; [discriminate|].
    destruct (Z.le_gt_cases (max_workers self) 0) as [Hw | Hw].
    + rewrite submit_all_no_pool in H by (auto; discriminate). discriminate.
    + destruct (submit_all_run (f0 :: flags)) as (evs' & _ & Hrun);
        [discriminate | lia |].
      rewrite Hrun in H.
      destruct (harvested (futures self world (f0 :: flags))) as [|r rs];
        [discriminate|].
      injection H as <- _. split; [discriminate | reflexivity].
Qed.

Lemma submit_all_bound flags results evs :
  submit_all self world flags = (inr results, evs) ->
  (length results <= length flags * length (targets self))%nat.
Proof.
  intros H. apply submit_all_returns in H as [[-> ->] | (_ & _ & ->)].
  - cbn. lia.
  - rewrite <- (futures_length). apply harvested_length.
Qed.

(** C10. When no task raises, the list that [submit_all] returns follows the
    order in which the tasks were submitted: for the flag at index [i] and
    the target at index [j] (both from 0, [M] targets), the entry at index
    [i * M + j] is the result of submitting that flag to that target.  The
    list has one entry per pair, and it is returned whenever the pool can be
    created and there is a target. *)
Theorem submit_all_order flags :
  (forall i j f t,
     flags !! i = Some f -> targets self !! j = Some t ->
     returned (submit_single self
                 (world (i * length (targets self) + j)%nat) t f)) ->
  (0 < max_workers self -> targets self <> [] ->
   exists results evs, submit_all self world flags = (inr results, evs))
  /\ (forall results evs,
        submit_all self world flags = (inr results, evs) ->
        length results = (length flags * length (targets self))%nat
        /\ forall i j f t,
             flags !! i = Some f -> targets self !! j = Some t ->
             exists r,
               fst (submit_single self
                      (world (i * length (targets self) + j)%nat) t f) = inr r
               /\ results !! (i * length (targets self) + j)%nat = Some r).
Proof.
  intros Hok.
  pose proof (futures_returned flags Hok) as Hall.
  apply harvested_all in Hall as [Hlen Hnth].
  rewrite futures_length in Hlen.
  split.
  - intros Hw Ht. destruct flags as [|f0 flags]; [eexists _, _; reflexivity|].
    destruct (submit_all_run (f0 :: flags)) as (evs & _ & ->);
      [discriminate | exact Hw |].
    destruct (harvested (futures self world (f0 :: flags))) as [|r rs] eqn:Hh.
    + exfalso. destruct (targets self); [contradiction | cbn in Hlen; lia].
    + eexists _, _. reflexivity.
  - intros results evs Hrun.
    apply submit_all_returns in Hrun as [[-> ->] | (_ & _ & ->)].
    + split; [reflexivity|]. intros i j f t Hi. discriminate.
    + split; [exact Hlen|]. intros i j f t Hi Hj.
      destruct (Hnth (i * length (targets self) + j)%nat
                  (submit_single self
                     (world (i * length (targets self) + j)%nat) t f))
        as (r & Hr & Hres); [|eauto].
      unfold futures. rewrite list_lookup_imap, (tasks_lookup _ _ _ _ _ Hi Hj).
      reflexivity.
Qed.

(** C5. On an empty list of flags [submit_all] returns the empty list at
    once, whatever the targets: no event happens, so no HTTP request is
    made. *)
Theorem submit_all_no_flags :
  submit_all self world [] = (inr [], [])
  /\ posts (snd (submit_all self world [])) = 0%nat.
Proof. split; reflexivity. Qed.

End SubmitAll.

(** * The constructor *)

(** C6. The constructor raises [ValueError] when the configuration has no
    [targets] key or an empty list under it; it has then logged one error and
    made no HTTP request.  With at least one target it returns the engine,
    holding those targets. *)
Theorem init_requires_target config_data :
  (c_targets config_data = None \/ c_targets config_data = Some [] ->
   exists evs,
     __init__ config_data
     = (inl (ValueError "至少需要配置一个目标服务器"), evs)
     /\ evs = [Log ERROR "No valid targets configured"]
     /\ posts evs = 0%nat)
  /\ (forall t ts,
        c_targets config_data = Some (t :: ts) ->
        exists self,
          __init__ config_data = (inr self, [])
          /\ targets self = t :: ts).
Proof.
  unfold __init__. split.
  - intros [-> | ->]; eexists; repeat split; reflexivity.
  - intros t ts ->. eexists. split; reflexivity.
Qed.

(** * Reading the flag file *)

Lemma validate_strip_canonical line :
  _validate_flag line = true -> canonical_flag (strip line).
Proof. unfold _validate_flag. apply fullmatch_canonical. Qed.

Lemma stripped_valid_lines_spec f :
  stripped_valid_lines f = List.map strip (List.filter _validate_flag f).
Proof.
  induction f as [|line f IH]; cbn [stripped_valid_lines List.filter]; [reflexivity|].
  destruct (_validate_flag line); cbn [List.map]; congruence.
Qed.

Lemma stripped_valid_lines_canonical f :
  Forall canonical_flag (stripped_valid_lines f).
Proof.
  induction f as [|line f IH]; cbn [stripped_valid_lines]; [constructor|].
  destruct (_validate_flag line) eqn:E; [|exact IH].
  constructor; [apply validate_strip_canonical, E | exact IH].
Qed.

(** C7 (amended). From a file that can be read, [_read_flags_file] returns,
    in file order, the lines that pass validation, each in its trimmed form
    (so every returned token is a canonical flag); the other lines are skipped
    and nothing is logged.  When reading fails it logs an error and returns the
    empty list.  It never raises. *)
Theorem read_flags_file_trimmed fs file_path :
  (forall f,
     fs file_path = Lines f ->
     _read_flags_file fs file_path
     = (inr (List.map strip (List.filter _validate_flag f)), [])
     /\ Forall canonical_flag (List.map strip (List.filter _validate_flag f)))
  /\ (forall msg,
        fs file_path = ReadFails msg ->
        _read_flags_file fs file_path
        = (inr [], [Log ERROR "读取flag文件失败"]))
  /\ returned (_read_flags_file fs file_path).
Proof.
  unfold _read_flags_file. split; [|split].
  - intros f ->. rewrite <- stripped_valid_lines_spec.
    split; [reflexivity | apply stripped_valid_lines_canonical].
  - intros msg ->. reflexivity.
  - destruct (fs file_path); eexists; reflexivity.
Qed.

(** * Loading the configuration *)

(** C8 (amended). Without a configuration path, or when no file exists at
    the path, [load_config] logs a warning and returns the built-in
    configuration, which has two targets.  When the file exists but cannot be
    read or parsed, the exception reaches the caller. *)
Theorem load_config_fallback fs config_path :
  (config_path = None \/ config_path = Some []
   \/ (exists p, config_path = Some p /\ fs p = Absent) ->
   load_config fs config_path
   = (inr DEFAULT_CONFIG, [Log WARNING "使用内置默认配置"])
   /\ exists t1 t2, c_targets DEFAULT_CONFIG = Some [t1; t2])
  /\ (forall p e,
        config_path = Some p -> p <> [] -> fs p = Unreadable e ->
        load_config fs config_path = (inl e, [])).
Proof.
  split.
  - intros H. split; [|eexists _, _; reflexivity].
    destruct H as [-> | [-> | (p & -> & Hp)]]; try reflexivity.
    unfold load_config. destruct p; [reflexivity|]. rewrite Hp. reflexivity.
  - intros p e -> Hp He. unfold load_config.
    destruct p; [contradiction|]. rewrite He. reflexivity.
Qed.

(** * Concrete runs *)

Lemma ex_submitter_constructed ts t :
  __init__ (ex_config (t :: ts)) = (inr (ex_submitter (t :: ts)), []).
Proof. reflexivity. Qed.

Lemma ex_request_built :
  request_of (ex_submitter [ex_target]) ex_target ex_flag = (inr ex_request, []).
Proof. reflexivity. Qed.

Lemma submit_single_response_witness :
  exists result evs,
    submit_single (ex_submitter [ex_target]) always_500 ex_target ex_flag
    = (inr result, evs)
    /\ Z.of_nat (posts evs) = 1
    /\ result !! "success" = Some (VBool false)
    /\ result !! "attempt" = Some (VInt 1)
    /\ result !! "status_code" = Some (VInt 500)
    /\ result !! "response" = Some (VStr (py "Internal Server Error")).
Proof.
  apply (submit_single_response (ex_submitter [ex_target]) always_500
           ex_target ex_flag ex_request [] (fun _ => []) 1 server_error).
  - reflexivity.
  - simpl. lia.
  - intros j Hj. lia.
  - reflexivity.
Defined.

Lemma submit_single_exhausted_witness :
  exists result evs,
    submit_single (ex_submitter [ex_target]) always_refused ex_target ex_flag
    = (inr result, evs)
    /\ Z.of_nat (posts evs) = 2
    /\ result !! "success" = Some (VBool false)
    /\ result !! "error" = Some (VStr (py "Connection refused"))
    /\ result !! "attempt" = None
    /\ result !! "status_code" = None
    /\ result !! "response" = None.
Proof.
  apply (submit_single_exhausted (ex_submitter [ex_target]) always_refused
           ex_target ex_flag ex_request []
           (fun _ => py "Connection refused")).
  - reflexivity.
  - intros k Hk. reflexivity.
Defined.

(** C2, as stated, fails: after two attempts that both raise, the result
    holds no attempt count. *)
Lemma submit_single_exhausted_no_attempt :
  exists result evs,
    submit_single (ex_submitter [ex_target]) always_refused ex_target ex_flag
    = (inr result, evs)
    /\ posts evs = 2%nat
    /\ result !! "success" = Some (VBool false)
    /\ result !! "attempt" = None.
Proof.
  eexists _, _. split; [reflexivity|]. repeat split.
Qed.

(** C1. With one flag and one target that lacks the key [ip], the only task
    raises [KeyError], the harvest drops it, and the success rate divides by
    the length of an empty list: [submit_all] raises [ZeroDivisionError].
    The statistics of the summary line divide in the same way. *)
Theorem success_rate_unguarded :
  submit_all (ex_submitter [keyless_target]) (fun _ => always_500) [ex_flag]
  = (inl ZeroDivisionError,
     [Log INFO "开始提交任务"; Log ERROR "提交任务异常"])
  /\ summary [] = (inl ZeroDivisionError, []).
Proof. split; reflexivity. Qed.

(** C9. Two flags and two targets, both without [ip]: the four tasks are
    dropped one by one, and then the run is aborted by [ZeroDivisionError]
    instead of returning the empty list. *)
Theorem submit_all_aborts_when_all_dropped :
  submit_all (ex_submitter [keyless_target; keyless_target])
             (fun _ => always_500) [ex_flag; ex_flag]
  = (inl ZeroDivisionError,
     [Log INFO "开始提交任务"; Log ERROR "提交任务异常";
      Log ERROR "提交任务异常"; Log ERROR "提交任务异常";
      Log ERROR "提交任务异常"]).
Proof. reflexivity. Qed.

Lemma submit_all_order_witness :
  (exists results evs,
     submit_all (ex_submitter [ex_target; ex_target])
                (fun k => if Nat.eqb k 3 then always_refused else always_500)
                [ex_flag; ex_flag] = (inr results, evs))
  /\ forall results evs,
       submit_all (ex_submitter [ex_target; ex_target])
                  (fun k => if Nat.eqb k 3 then always_refused else always_500)
                  [ex_flag; ex_flag] = (inr results, evs) ->
       length results = 4%nat
       /\ exists r,
            fst (submit_single (ex_submitter [ex_target; ex_target])
                   always_refused ex_target ex_flag) = inr r
            /\ results !! 3%nat = Some r.
Proof.
  destruct (submit_all_order (ex_submitter [ex_target; ex_target])
              (fun k => if Nat.eqb k 3 then always_refused else always_500)
              [ex_flag; ex_flag]) as [Hret Hord].
  { intros i j f t Hi Hj.
    destruct i as [|[|i]]; try discriminate;
      destruct j as [|[|j]]; try discriminate;
      injection Hi as <-; injection Hj as <-; eexists; reflexivity. }
  split.
  - apply Hret; [reflexivity | discriminate].
  - intros results evs Hrun. destruct (Hord results evs Hrun) as [Hlen Hnth].
    split; [exact Hlen|].
    exact (Hnth 1%nat 1%nat ex_flag ex_target eq_refl eq_refl).
Defined.

Lemma init_requires_target_witness :
  exists evs,
    __init__ (ex_config [])
    = (inl (ValueError "至少需要配置一个目标服务器"), evs)
    /\ evs = [Log ERROR "No valid targets configured"]
    /\ posts evs = 0%nat.
Proof.
  apply (proj1 (init_requires_target (ex_config []))). right. reflexivity.
Defined.

(** C7, as stated, fails: the token kept for a line is its trimmed form, not
    the line as read (which ends in a newline). *)
Lemma read_flags_file_keeps_trimmed :
  _read_flags_file (fun _ => Lines [ex_line; py "not a flag"; ex_line])
                   (py "flags.txt")
  = (inr [ex_flag; ex_flag], [])
  /\ strip ex_line = ex_flag
  /\ (length ex_flag < length ex_line)%nat.
Proof. repeat split. cbn. lia. Qed.

Lemma read_flags_file_trimmed_witness :
  _read_flags_file (fun _ => Lines [ex_line; py "not a flag"; ex_line])
                   (py "flags.txt")
  = (inr [ex_flag; ex_flag], [])
  /\ Forall canonical_flag [ex_flag; ex_flag].
Proof.
  apply (proj1 (read_flags_file_trimmed
                  (fun _ => Lines [ex_line; py "not a flag"; ex_line])
                  (py "flags.txt"))
           [ex_line; py "not a flag"; ex_line] eq_refl).
Defined.

(** C8, as stated, fails: a configuration file that exists but cannot be
    read makes [load_config] raise. *)
Lemma load_config_unreadable_raises :
  load_config (fun _ => Unreadable (OSError (py "Permission denied")))
              (Some (py "config.yaml"))
  = (inl (OSError (py "Permission denied")), []).
Proof. reflexivity. Qed.

Lemma load_config_fallback_witness :
  load_config (fun _ => Absent) (Some (py "config.yaml"))
  = (inr DEFAULT_CONFIG, [Log WARNING "使用内置默认配置"])
  /\ exists t1 t2, c_targets DEFAULT_CONFIG = Some [t1; t2].
Proof.
  apply (proj1 (load_config_fallback (fun _ => Absent) (Some (py "config.yaml")))).
  right. right. exists (py "config.yaml"). split; reflexivity.
Defined.

(** * Further properties of [submit_single] *)

Lemma sleeps_app evs1 evs2 :
  sleeps (evs1 ++ evs2) = (sleeps evs1 + sleeps evs2)%nat.
Proof. unfold sleeps. rewrite List.filter_app, length_app. reflexivity. Qed.

Lemma retry_loop_any post req : forall attempts r0,
  exists r evs,
    retry_loop post req attempts r0 = (inr r, evs)
    /\ r !! "target" = r0 !! "target"
    /\ r !! "flag" = r0 !! "flag"
    /\ Forall (fun e => e = Post req \/ e = Sleep 1) evs
    /\ loop_outcome attempts r0 r evs.
Proof.
  induction attempts as [|a rest IH]; intros r0; cbn [retry_loop].
  - exists r0, []. repeat split; auto. apply Exhausted; reflexivity.
  - destruct (post a req) as [resp | msg].
    + unfold tell, ret. rewrite bind_ok. cbn [fst snd app].
      eexists _, _. split; [reflexivity|].
      split; [rewrite !lookup_insert_ne by discriminate; reflexivity|].
      split; [rewrite !lookup_insert_ne by discriminate; reflexivity|].
      split; [constructor; [left; reflexivity | constructor]|].
      apply (Answered _ _ _ _ a (status_code resp)).
      * left. reflexivity.
      * rewrite !lookup_insert_ne by discriminate. apply lookup_insert_eq.
      * rewrite !lookup_insert_ne by discriminate. apply lookup_insert_eq.
      * apply lookup_insert_eq.
      * cbn. lia.
      * reflexivity.
    + destruct (IH (<["error" := VStr msg]> r0))
        as (r & evs & Hloop & Ht & Hf & Hevs & Hout).
      unfold tell. rewrite !bind_ok, Hloop. cbn [fst snd app].
      eexists _, _. split; [reflexivity|].
      rewrite lookup_insert_ne in Ht by discriminate.
      rewrite lookup_insert_ne in Hf by discriminate.
      split; [exact Ht|]. split; [exact Hf|].
      split.
      { constructor; [left; reflexivity|].
        constructor; [right; reflexivity | exact Hevs]. }
      destruct Hout as [Hs Ha Hc Hp Hsl | k status Hk Hs Ha Hc Hp Hsl].
      * rewrite lookup_insert_ne in Hs, Ha, Hc by discriminate.
        apply Exhausted; auto; cbn; unfold posts, sleeps in *; cbn; lia.
      * apply (Answered _ _ _ _ k status); auto.
        -- right. exact Hk.
        -- unfold posts in *. cbn. lia.
        -- unfold posts, sleeps in *. cbn. lia.
Qed.

(** Every event of [submit_single] before its final log record is a request
    or a one-second sleep. *)
Lemma submit_single_any self post target flag req evs0 :
  request_of self target flag = (inr req, evs0) ->
  exists r0 r evs,
    fresh r0
    /\ initial_result target flag = (inr r0, [])
    /\ submit_single self post target flag
       = (inr r, evs ++ [Log INFO "提交结果"])
    /\ r !! "target" = r0 !! "target"
    /\ r !! "flag" = r0 !! "flag"
    /\ Forall (fun e => e = Post req \/ e = Sleep 1) evs
    /\ loop_outcome (range 1 (max_retries self + 1)) r0 r evs.
Proof.
  intros Hreq.
  destruct (submit_single_unfold self post target flag req evs0 Hreq)
    as (r0 & Hfresh & Hinit & ->).
  destruct (retry_loop_any post req (range 1 (max_retries self + 1)) r0)
    as (r & evs & -> & Ht & Hf & Hevs & Hout).
  exists r0, r, evs. unfold tell, ret. rewrite !bind_ok. cbn [fst snd app].
  split; [exact Hfresh|]. split; [exact Hinit|]. split; [reflexivity|].
  auto.
Qed.

Lemma request_of_events self target flag res evs :
  request_of self target flag = (res, evs) -> evs = [].
Proof.
  unfold request_of.
  destruct (protocol target), (ip target), (port target), (path target);
    intros H; apply (f_equal snd) in H; symmetry; exact H.
Qed.

(** A task that returns had a target from which the request could be built. *)
Lemma submit_single_returned self post target flag result evs :
  submit_single self post target flag = (inr result, evs) ->
  exists req r0 evs',
    request_of self target flag = (inr req, [])
    /\ fresh r0
    /\ initial_result target flag = (inr r0, [])
    /\ evs = evs' ++ [Log INFO "提交结果"]
    /\ result !! "target" = r0 !! "target"
    /\ result !! "flag" = r0 !! "flag"
    /\ Forall (fun e => e = Post req \/ e = Sleep 1) evs'
    /\ loop_outcome (range 1 (max_retries self + 1)) r0 result evs'.
Proof.
  intros H.
  destruct (request_of self target flag) as [[e|req] evs0] eqn:Hreq.
  - exfalso. unfold submit_single in H. rewrite Hreq in H.
    destruct (initial_result target flag) as [[e0|r0] evs1];
      cbn in H; discriminate.
  - pose proof (request_of_events _ _ _ _ _ Hreq) as ->.
    destruct (submit_single_any self post target flag req [] Hreq)
      as (r0 & r & evs' & Hfresh & Hinit & Hrun & Ht & Hf & Hevs & Hout).
    rewrite Hrun in H. injection H as <- <-.
    exists req, r0, evs'. auto 10.
Qed.

(** X1. A target without one of the keys [ip], [port], [protocol], [path]
    makes [submit_single] raise [KeyError] for the first missing key, in that
    order, before any request, sleep or log record. *)
Theorem submit_single_missing_key self post target flag :
  (ip target = None ->
   submit_single self post target flag = (inl (KeyError "ip"), []))
  /\ (is_Some (ip target) -> port target = None ->
      submit_single self post target flag = (inl (KeyError "port"), []))
  /\ (is_Some (ip target) -> is_Some (port target) ->
      protocol target = None ->
      submit_single self post target flag = (inl (KeyError "protocol"), []))
  /\ (is_Some (ip target) -> is_Some (port target) ->
      is_Some (protocol target) -> path target = None ->
      submit_single self post target flag = (inl (KeyError "path"), [])).
Proof.
  unfold submit_single, initial_result, request_of.
  repeat split.
  - intros ->. reflexivity.
  - intros [vip ->] ->. reflexivity.
  - intros [vip ->] [vport ->] ->. reflexivity.
  - intros [vip ->] [vport ->] [vproto ->] ->. reflexivity.
Qed.

(** X2. With the four keys present [submit_single] never raises, whatever
    the network does on each attempt: it returns a result after at most
    [max_retries] requests (none when [max_retries] is below one), all of
    them the same request, and does nothing else than post, sleep one second
    and log the result once at the end. *)
Theorem submit_single_bounded self post target flag req evs0 :
  request_of self target flag = (inr req, evs0) ->
  exists result evs,
    submit_single self post target flag
    = (inr result, evs ++ [Log INFO "提交结果"])
    /\ Z.of_nat (posts evs) <= Z.max 0 (max_retries self)
    /\ Forall (fun e => e = Post req \/ e = Sleep 1) evs.
Proof.
  intros Hreq.
  destruct (submit_single_any self post target flag req evs0 Hreq)
    as (r0 & r & evs & _ & _ & Hrun & _ & _ & Hevs & Hout).
  exists r, evs. split; [exact Hrun|]. split; [|exact Hevs].
  pose proof (length_range 1 (max_retries self + 1)) as Hlen.
  destruct Hout as [_ _ _ Hp _ | k status _ _ _ _ Hp _]; lia.
Qed.


(** X4. In every result that [submit_single] returns, [success] is true
    exactly when a response with status code 200 was recorded. *)
Theorem submit_single_success_iff_200 self post target flag result evs :
  submit_single self post target flag = (inr result, evs) ->
  result !! "success" = Some (VBool true)
  <-> result !! "status_code" = Some (VInt 200).
Proof.
  intros H.
  apply submit_single_returned in H
    as (req & r0 & evs' & _ & (Hs0 & _ & Hc0 & _) & _ & _ & _ & _ & _ & Hout).
  destruct Hout as [Hs _ Hc _ _ | k status _ Hs _ Hc _ _].
  - rewrite Hs, Hs0, Hc, Hc0. split; discriminate.
  - rewrite Hs, Hc. split.
    + intros [= Heq]. apply Z.eqb_eq in Heq. subst. reflexivity.
    + intros [= ->]. reflexivity.
Qed.

(** X5. [submit_single] sleeps after every attempt that raised, the last one
    included: a result without [attempt] comes after as many sleeps as
    requests, [max_retries] of each, and a result with [attempt] after one
    sleep less than requests. *)
Theorem submit_single_sleeps self post target flag result evs :
  submit_single self post target flag = (inr result, evs) ->
  (result !! "attempt" = None ->
   sleeps evs = posts evs /\ Z.of_nat (posts evs) = Z.max 0 (max_retries self))
  /\ (is_Some (result !! "attempt") -> posts evs = S (sleeps evs)).
Proof.
  intros H.
  apply submit_single_returned in H
    as (req & r0 & evs' & _ & (_ & Ha0 & _) & _ & -> & _ & _ & _ & Hout).
  rewrite posts_app, sleeps_app. cbn.
  pose proof (length_range 1 (max_retries self + 1)) as Hlen.
  destruct Hout as [_ Ha _ Hp Hsl | k status _ _ Ha _ _ Hp].
  - split; [intros _; lia|].
    rewrite Ha, Ha0. intros [x Hx]. discriminate.
  - split; [rewrite Ha; discriminate | intros _; lia].
Qed.

(** X6. When a response comes after failed attempts, the result keeps the
    message of the last failure under [error], next to the recorded
    response: a result can hold both [success] true and an [error]. *)
Theorem submit_single_keeps_error self post target flag req evs0 msg k resp :
  request_of self target flag = (inr req, evs0) ->
  2 <= k <= max_retries self ->
  (forall j, 1 <= j < k -> post j req = Throws (msg j)) ->
  post k req = Responds resp ->
  exists result evs,
    submit_single self post target flag = (inr result, evs)
    /\ result !! "error" = Some (VStr (msg (k - 1)))
    /\ result !! "success" = Some (VBool (status_code resp =? 200)).
Proof.
  intros Hreq Hk Hpre Hpost.
  destruct (submit_single_unfold self post target flag req evs0 Hreq)
    as (r0 & _ & _ & ->).
  rewrite (range_split _ k) by lia.
  rewrite (retry_loop_responds post req msg resp)
    by (auto; intros j Hj; apply Hpre; apply in_range in Hj; lia).
  unfold tell, ret. rewrite !bind_ok. cbn [fst snd].
  eexists _, _. split; [reflexivity|]. unfold record_response. split.
  - rewrite !lookup_insert_ne by discriminate.
    replace k with ((k - 1) + 1) at 1 by lia.
    rewrite range_last by lia. apply record_errors_last.
  - rewrite !lookup_insert_ne by discriminate. apply lookup_insert_eq.
Qed.

(** * Further properties of [submit_all] *)

(** Whatever its outcome, a task makes at most [max_retries] requests. *)
Lemma submit_single_posts self post target flag :
  Z.of_nat (posts (snd (submit_single self post target flag)))
  <= Z.max 0 (max_retries self).
Proof.
  destruct (request_of self target flag) as [[e|req] evs0] eqn:Hreq.
  - unfold submit_single. rewrite Hreq.
    destruct (initial_result target flag) as [[e0|r0] evs1] eqn:Hinit.
    + cbn. unfold initial_result in Hinit.
      destruct (ip target), (port target);
        apply (f_equal snd) in Hinit; cbn in Hinit; subst; cbn; lia.
    + pose proof (request_of_events _ _ _ _ _ Hreq) as ->.
      unfold initial_result in Hinit.
      destruct (ip target), (port target);
        apply (f_equal snd) in Hinit; cbn in Hinit; subst; cbn; lia.
  - destruct (submit_single_any self post target flag req evs0 Hreq)
      as (r0 & r & evs & _ & _ & -> & _ & _ & _ & Hout).
    cbn [snd]. rewrite posts_app. cbn.
    pose proof (length_range 1 (max_retries self + 1)) as Hlen.
    destruct Hout as [_ _ _ Hp _ | k status _ _ _ _ Hp _]; lia.
Qed.

Lemma posts_concat (fs : list (M (gmap string pyval))) (b : nat) :
  Forall (fun m => (posts (snd m) <= b)%nat) fs ->
  (posts (concat (List.map snd fs)) <= length fs * b)%nat.
Proof.
  induction 1 as [|m fs Hm _ IH]; [cbn; lia|].
  cbn [List.map concat length]. rewrite posts_app. lia.
Qed.

(** X7. Whatever [submit_all] returns for a non-empty list of flags is not
    empty, has at most one entry per (flag, target) pair, and every entry has
    a boolean [success]. *)
Theorem submit_all_result_shape self world flags results evs :
  flags <> [] ->
  submit_all self world flags = (inr results, evs) ->
  results <> []
  /\ (length results <= length flags * length (targets self))%nat
  /\ Forall has_success results.
Proof.
  intros Hflags Hrun.
  pose proof (submit_all_bound _ _ _ _ _ Hrun) as Hlen.
  apply submit_all_returns in Hrun as [[-> _] | (_ & Hne & ->)];
    [contradiction|].
  split; [exact Hne|]. split; [exact Hlen|]. apply futures_success.
Qed.


Lemma submit_all_posts self world flags :
  Z.of_nat (posts (snd (submit_all self world flags)))
  <= Z.of_nat (length flags) * Z.of_nat (length (targets self))
     * Z.max 0 (max_retries self).
Proof.
  destruct flags as [|f0 flags]; [cbn; lia|].
  destruct (Z.le_gt_cases (max_workers self) 0) as [Hw | Hw].
  - rewrite submit_all_no_pool by (auto; discriminate). cbn. nia.
  - destruct (submit_all_run self world (f0 :: flags)) as (evs & Hp & ->);
      [discriminate | lia |].
    assert (Hb : (posts (concat (List.map snd (futures self world (f0 :: flags))))
                  <= length (futures self world (f0 :: flags))
                     * Z.to_nat (Z.max 0 (max_retries self)))%nat).
    { apply posts_concat, Forall_lookup. intros k m Hk.
      apply futures_lookup in Hk as (t & f & _ & ->).
      pose proof (submit_single_posts self (world k) t f). lia. }
    rewrite futures_length in Hb.
    destruct (harvested (futures self world (f0 :: flags))); cbn [snd];
      rewrite ?posts_app; cbn [posts List.filter is_post length] in *; nia.
Qed.

(** X9. A run of [submit_all] makes at most [max_retries] requests per
    (flag, target) pair, whatever the network does and however the run
    ends. *)
Theorem submit_all_request_budget self world flags :
  Z.of_nat (posts (snd (submit_all self world flags)))
  <= Z.of_nat (length flags) * Z.of_nat (length (targets self))
     * Z.max 0 (max_retries self).
Proof. apply submit_all_posts. Qed.

Lemma harvested_lookup_in (fs : list (M (gmap string pyval))) : forall k m r,
  fs !! k = Some m -> fst m = inr r -> In r (harvested fs).
Proof.
  unfold harvested.
  induction fs as [|m0 fs IH]; intros [|k] m r Hk Hr; try discriminate;
    cbn [omap list_omap].
  - injection Hk as ->. rewrite Hr. left. reflexivity.
  - destruct (fst m0); [|right]; eapply IH; eassumption.
Qed.

(** X10. As soon as one task returns (and the pool can be created), the
    run is not aborted by the tasks that raise: [submit_all] returns the
    results of the tasks that returned, in submission order, each of them
    present. *)
Theorem submit_all_keeps_returned self world flags k t f r :
  0 < max_workers self ->
  tasks self flags !! k = Some (t, f) ->
  fst (submit_single self (world k) t f) = inr r ->
  exists evs,
    submit_all self world flags
    = (inr (harvested (futures self world flags)), evs)
    /\ In r (harvested (futures self world flags)).
Proof.
  intros Hw Hk Hr.
  destruct (submit_all_some_kept self world flags k t f r Hw Hk Hr)
    as [evs Hrun].
  exists evs. split; [exact Hrun|].
  apply (harvested_lookup_in _ k (submit_single self (world k) t f));
    [|exact Hr].
  unfold futures. rewrite list_lookup_imap, Hk. reflexivity.
Qed.

(** * Reading flags from standard input *)

Lemma token_char_nosep c : token_char c -> is_sep c = false.
Proof.
  intros [Hp Hc]. unfold is_sep. rewrite (printable_isspace _ Hp).
  destruct (N.eqb_spec c 44); [contradiction | reflexivity].
Qed.

Lemma is_sep_isspace c : is_sep c = false -> isspace c = false.
Proof. unfold is_sep. intros H. apply orb_false_iff in H. tauto. Qed.

Lemma isspace_is_sep c : isspace c = true -> is_sep c = true.
Proof. unfold is_sep. intros ->. apply orb_true_r. Qed.

Lemma ci_token p w : ci_equal p w -> Forall token_char w -> Forall token_char p.
Proof.
  induction 1 as [|c l p w Hc _ IH]; intros Hw; [constructor|].
  inversion Hw as [|? ? [Hl Hl'] Hw']; subst. constructor; [|auto].
  unfold token_char, printable in *.
  pose proof (ascii_fold_cases c). pose proof (ascii_fold_cases l). lia.
Qed.

Ltac token_literal :=
  repeat constructor; unfold printable; simpl; lia.

Lemma canonical_token t : canonical_flag t -> Forall token_char t.
Proof.
  intros (p & g1 & g2 & g3 & g4 & g5 & -> & Hp & H1 & H2 & H3 & H4 & H5).
  assert (Hhex : forall n g, hex_group n g -> Forall token_char g).
  { intros n g [_ Hg]. eapply Forall_impl; [exact Hg|].
    intros c Hc. unfold token_char, printable, hex_digit in *. lia. }
  assert (Hdash : Forall token_char (py "-")) by token_literal.
  assert (Hbrace : Forall token_char (py "}")) by token_literal.
  assert (Hflag : Forall token_char p).
  { eapply ci_token; [exact Hp | token_literal]. }
  repeat apply Forall_app_2; eauto.
Qed.

(** A canonical flag starts and ends with a character that is not
    whitespace. *)
Lemma canonical_ends t :
  canonical_flag t ->
  exists c m d m',
    t = c :: m /\ t = m' ++ [d] /\ isspace c = false /\ isspace d = false.
Proof.
  intros Ht.
  pose proof (canonical_printable _ Ht) as Hpr.
  pose proof (canonical_length _ Ht) as Hlen.
  destruct t as [|c m]; [discriminate|].
  destruct (exists_last (l := c :: m)) as (m' & d & Hm'); [discriminate|].
  exists c, m, d, m'. split; [reflexivity|]. split; [exact Hm'|]. split.
  - apply printable_isspace. inversion Hpr; assumption.
  - apply printable_isspace. rewrite Hm' in Hpr.
    apply Forall_app in Hpr as [_ Hpr]. inversion Hpr; assumption.
Qed.

Lemma canonical_validates t : canonical_flag t -> _validate_flag t = true.
Proof.
  intros Ht. apply validate_iff. exists [], t, [].
  rewrite app_nil_r. repeat split; auto; constructor.
Qed.

(** Trimming changes nothing in a string without whitespace. *)
Lemma strip_nospace s :
  Forall (fun c => isspace c = false) s -> strip s = s.
Proof.
  intros H. destruct s as [|c m]; [reflexivity|].
  destruct (exists_last (l := c :: m)) as (m' & d & Hm'); [discriminate|].
  unfold strip. rewrite lstrip_fixed by (inversion H; assumption).
  rewrite Hm'. apply rstrip_fixed.
  rewrite Hm' in H. apply Forall_app in H as [_ H]. inversion H; assumption.
Qed.

(** The pieces of [re.split] hold no separator. *)
Lemma split_go_pieces : forall s cur in_sep,
  Forall (fun c => is_sep c = false) cur ->
  Forall (Forall (fun c => is_sep c = false)) (split_go s cur in_sep).
Proof.
  induction s as [|c s IH]; intros cur in_sep Hcur; cbn [split_go].
  - repeat constructor. exact Hcur.
  - destruct (is_sep c) eqn:Hc.
    + destruct in_sep; [|constructor; [exact Hcur|]]; apply IH; constructor.
    + apply IH, Forall_app_2; [exact Hcur | repeat constructor; exact Hc].
Qed.

Lemma valid_items_canonical items :
  Forall (Forall (fun c => is_sep c = false)) items ->
  Forall canonical_flag (valid_items items).
Proof.
  induction 1 as [|item items Hitem _ IH]; cbn [valid_items]; [constructor|].
  destruct (_validate_flag item) eqn:E; [|exact IH].
  constructor; [|exact IH].
  apply validate_strip_canonical in E. rewrite strip_nospace in E; [exact E|].
  eapply Forall_impl; [exact Hitem | apply is_sep_isspace].
Qed.

Lemma stdin_flags_shape stdin flags evs :
  _read_flags_stdin stdin = (inr flags, evs) ->
  Forall canonical_flag flags /\ evs = [].
Proof.
  destruct stdin as [|data|e]; cbn [_read_flags_stdin]; intros H;
    try discriminate; injection H as <- <-.
  - split; [constructor | reflexivity].
  - split; [|reflexivity].
    apply valid_items_canonical, split_go_pieces. constructor.
Qed.

(** X11. Every token that [_read_flags_stdin] returns is a canonical flag as
    it stands (no whitespace or comma is left around it), and the function
    logs nothing; a terminal on standard input gives no token. *)
Theorem stdin_flags_canonical stdin flags evs :
  _read_flags_stdin stdin = (inr flags, evs) ->
  Forall canonical_flag flags
  /\ evs = []
  /\ (stdin = Tty -> flags = []).
Proof.
  destruct stdin as [|data|e]; cbn [_read_flags_stdin]; intros H;
    try discriminate; injection H as <- <-.
  - repeat split. constructor.
  - split; [|split; [reflexivity | discriminate]].
    apply valid_items_canonical, split_go_pieces. constructor.
Qed.

Lemma split_go_token t : forall rest cur in_sep,
  t <> [] -> Forall (fun c => is_sep c = false) t ->
  split_go (t ++ rest) cur in_sep = split_go rest (cur ++ t) false.
Proof.
  induction t as [|c t IH]; intros rest cur in_sep Hne Ht; [contradiction|].
  inversion Ht as [|? ? Hc Ht']; subst.
  cbn [app split_go]. rewrite Hc.
  destruct t as [|c' t].
  - reflexivity.
  - rewrite IH by (auto; discriminate). rewrite <- app_assoc. reflexivity.
Qed.

Lemma split_go_in_sep sep : forall rest,
  separators sep -> split_go (sep ++ rest) [] true = split_go rest [] true.
Proof.
  induction 1 as [|c sep Hc _ IH]; [reflexivity|].
  cbn [app split_go]. rewrite Hc. exact IH.
Qed.

Lemma split_go_seps sep rest cur :
  sep <> [] -> separators sep ->
  split_go (sep ++ rest) cur false = cur :: split_go rest [] true.
Proof.
  intros Hne Hsep. destruct Hsep as [|c sep Hc Hsep]; [contradiction|].
  cbn [app split_go]. rewrite Hc. f_equal. apply split_go_in_sep, Hsep.
Qed.

(** The pieces of flags joined by separator runs are the flags, with one
    empty piece after them when separators follow. *)
Lemma split_go_joined : forall rest f trail in_sep,
  canonical_flag f ->
  Forall (fun sg => fst sg <> [] /\ separators (fst sg)
                    /\ canonical_flag (snd sg)) rest ->
  separators trail ->
  split_go (joined f rest ++ trail) [] in_sep
  = (f :: List.map snd rest) ++ match trail with [] => [] | _ => [[]] end.
Proof.
  induction rest as [|[sep g] rest IH]; intros f trail in_sep Hf Hrest Htrail.
  - cbn [joined List.map].
    assert (Hne : f <> []) by (apply canonical_length in Hf; intros ->; discriminate).
    assert (Hns : Forall (fun c => is_sep c = false) f).
    { eapply Forall_impl; [apply canonical_token, Hf | apply token_char_nosep]. }
    rewrite split_go_token by assumption. cbn [app].
    destruct trail as [|c trail]; [reflexivity|].
    pose proof (split_go_seps (c :: trail) [] f) as Hs.
    rewrite app_nil_r in Hs. rewrite Hs by (auto; discriminate).
    reflexivity.
  - inversion Hrest as [|? ? (Hne' & Hsep & Hg) Hrest']; subst. cbn in Hne', Hsep, Hg.
    cbn [joined List.map snd].
    assert (Hne : f <> []) by (apply canonical_length in Hf; intros ->; discriminate).
    assert (Hns : Forall (fun c => is_sep c = false) f).
    { eapply Forall_impl; [apply canonical_token, Hf | apply token_char_nosep]. }
    rewrite <- !app_assoc. rewrite split_go_token by assumption. cbn [app].
    rewrite split_go_seps by assumption.
    rewrite (IH g trail true Hg Hrest' Htrail). reflexivity.
Qed.

Lemma joined_ends : forall rest f,
  canonical_flag f ->
  Forall (fun sg => fst sg <> [] /\ separators (fst sg)
                    /\ canonical_flag (snd sg)) rest ->
  exists c m d m',
    joined f rest = c :: m /\ joined f rest = m' ++ [d]
    /\ isspace c = false /\ isspace d = false.
Proof.
  induction rest as [|[sep g] rest IH]; intros f Hf Hrest; cbn [joined].
  - apply canonical_ends, Hf.
  - inversion Hrest as [|? ? (_ & _ & Hg) Hrest']; subst. cbn in Hg.
    destruct (canonical_ends _ Hf) as (c & m & _ & _ & -> & _ & Hc & _).
    destruct (IH g Hg Hrest') as (_ & _ & d & m' & _ & -> & _ & Hd).
    exists c, (m ++ sep ++ m' ++ [d]), d, ((c :: m) ++ sep ++ m').
    repeat split; auto. rewrite <- !app_assoc. reflexivity.
Qed.

(** Trimming only removes whitespace from separator runs at the ends. *)
Lemma lstrip_seps sep : forall c m,
  separators sep -> isspace c = false ->
  exists sep', separators sep' /\ lstrip (sep ++ c :: m) = sep' ++ c :: m.
Proof.
  induction 1 as [|s sep Hs Hsep IH]; intros Hc.
  - exists []. split; [constructor|]. cbn [app]. apply lstrip_fixed, Hc.
  - cbn [app lstrip]. destruct (isspace s) eqn:E.
    + apply IH, Hc.
    + exists (s :: sep). split; [constructor; assumption | reflexivity].
Qed.

Lemma separators_rev s : separators s -> separators (rev s).
Proof.
  unfold separators. rewrite !Forall_forall. intros H c Hc.
  apply H, list_elem_of_In, in_rev, list_elem_of_In, Hc.
Qed.

Lemma rstrip_seps sep m' d :
  separators sep -> isspace d = false ->
  exists sep', separators sep'
               /\ rstrip ((m' ++ [d]) ++ sep) = (m' ++ [d]) ++ sep'.
Proof.
  intros Hsep Hd. unfold rstrip.
  rewrite rev_app_distr, (rev_app_distr m' [d]).
  change (rev [d] ++ rev m') with (d :: rev m').
  destruct (lstrip_seps (rev sep) d (rev m') (separators_rev _ Hsep) Hd)
    as (sep' & Hsep' & ->).
  exists (rev sep'). split; [apply separators_rev, Hsep'|].
  rewrite rev_app_distr. change (d :: rev m') with (rev [d] ++ rev m').
  rewrite <- (rev_app_distr m' [d]), rev_involutive. reflexivity.
Qed.

Lemma validate_empty : _validate_flag [] = false.
Proof. reflexivity. Qed.

Lemma valid_items_canonical_all fs :
  Forall canonical_flag fs -> valid_items fs = fs.
Proof.
  induction 1 as [|f fs Hf _ IH]; cbn [valid_items]; [reflexivity|].
  rewrite (canonical_validates _ Hf), IH. reflexivity.
Qed.

Lemma valid_items_app l1 l2 :
  valid_items (l1 ++ l2) = valid_items l1 ++ valid_items l2.
Proof.
  induction l1 as [|x l1 IH]; cbn [app valid_items]; [reflexivity|].
  destruct (_validate_flag x); cbn [app]; congruence.
Qed.

(** X12. Canonical flags written one after the other, with a non-empty run
    of commas and whitespace between two flags and any such run before the
    first and after the last, are read back from the pipe exactly: the same
    flags, in the same order. *)
Theorem stdin_round_trip lead f rest trail :
  separators lead -> separators trail ->
  canonical_flag f ->
  Forall (fun sg => fst sg <> [] /\ separators (fst sg)
                    /\ canonical_flag (snd sg)) rest ->
  _read_flags_stdin (Piped (lead ++ joined f rest ++ trail))
  = (inr (f :: List.map snd rest), []).
Proof.
  intros Hlead Htrail Hf Hrest. cbn [_read_flags_stdin]. unfold ret.
  do 2 f_equal.
  destruct (joined_ends rest f Hf Hrest) as (c & m & d & m' & Hhead & Hlast & Hc & Hd).
  assert (Hflags : Forall canonical_flag (f :: List.map snd rest)).
  { constructor; [exact Hf|]. apply Forall_forall. intros g Hg.
    apply list_elem_of_In, in_map_iff in Hg as ([sep g'] & <- & Hin).
    rewrite Forall_forall in Hrest.
    apply list_elem_of_In, Hrest in Hin. tauto. }
  (* the trimmed input *)
  assert (Hstrip : exists lead' trail',
             separators lead' /\ separators trail'
             /\ strip (lead ++ joined f rest ++ trail)
                = lead' ++ joined f rest ++ trail').
  { unfold strip. rewrite Hhead.
    change ((c :: m) ++ trail) with (c :: (m ++ trail)).
    destruct (lstrip_seps lead c (m ++ trail) Hlead Hc) as (lead' & Hlead' & ->).
    change (c :: (m ++ trail)) with ((c :: m) ++ trail).
    rewrite <- Hhead, app_assoc, Hlast, app_assoc.
    destruct (rstrip_seps trail (lead' ++ m') d Htrail Hd) as (trail' & Htrail' & ->).
    exists lead', trail'. rewrite <- !app_assoc. auto. }
  destruct Hstrip as (lead' & trail' & Hlead' & Htrail' & ->).
  unfold re_split.
  assert (Hsplit : exists pre post,
             valid_items pre = [] /\ valid_items post = []
             /\ split_go (lead' ++ joined f rest ++ trail') [] false
                = pre ++ (f :: List.map snd rest) ++ post).
  { destruct lead' as [|s lead'].
    - exists [], (match trail' with [] => [] | _ => [[]] end).
      split; [reflexivity|]. split; [destruct trail'; reflexivity|].
      cbn [app]. apply split_go_joined; assumption.
    - exists [[]], (match trail' with [] => [] | _ => [[]] end).
      split; [reflexivity|]. split; [destruct trail'; reflexivity|].
      rewrite split_go_seps by (auto; discriminate).
      rewrite split_go_joined by assumption. reflexivity. }
  destruct Hsplit as (pre & post & Hpre & Hpost & ->).
  rewrite !valid_items_app, Hpre, Hpost, app_nil_r. cbn [app].
  apply valid_items_canonical_all, Hflags.
Qed.

(** * [get_flags] *)

Lemma read_flags_file_run fs p :
  exists evs,
    _read_flags_file fs p
    = (inr (match fs p with
            | Lines f => List.map strip (List.filter _validate_flag f)
            | ReadFails _ => []
            end), evs).
Proof.
  unfold _read_flags_file. destruct (fs p) as [msg | f].
  - eexists. reflexivity.
  - rewrite stripped_valid_lines_spec. eexists. reflexivity.
Qed.

Lemma read_flags_file_shape fs p res evs :
  _read_flags_file fs p = (res, evs) ->
  exists flags,
    res = inr flags /\ Forall canonical_flag flags
    /\ ~ In (Log WARNING "未获取到有效flag") evs.
Proof.
  unfold _read_flags_file. destruct (fs p) as [msg | f]; intros [= <- <-].
  - exists []. split; [reflexivity|]. split; [constructor|].
    intros [Hin | []]. discriminate.
  - eexists. split; [reflexivity|].
    split; [apply stripped_valid_lines_canonical | intros []].
Qed.

(** The two steps that follow the reading in [get_flags]: the record of the
    source, and the warning when the list is empty. *)
Lemma log_step (m : M (list pystr)) msg :
  (flags <~ m ;; tell [Log INFO msg] ;;; ret flags)
  = match m with
    | (inl e, evs) => (inl e, evs)
    | (inr flags, evs) => (inr flags, evs ++ [Log INFO msg])
    end.
Proof. destruct m as [[e|flags] evs]; reflexivity. Qed.

Lemma warn_step (m : M (list pystr)) :
  (flags <~ m ;;
   match flags with
   | [] => tell [Log WARNING "未获取到有效flag"]
   | _ :: _ => ret tt
   end ;;;
   ret flags)
  = match m with
    | (inl e, evs) => (inl e, evs)
    | (inr flags, evs) => (inr flags, evs ++ empty_warning flags)
    end.
Proof. destruct m as [[e|[|f flags]] evs]; reflexivity. Qed.

(** [get_flags] with its source made explicit. *)
Lemma get_flags_file path_exists fs stdin c p :
  path_exists (c :: p) = inr true ->
  get_flags path_exists fs stdin (Some (c :: p))
  = match _read_flags_file fs (c :: p) with
    | (inl e, evs) => (inl e, evs)
    | (inr flags, evs) =>
        (inr flags, (evs ++ [Log INFO "从文件加载flag"]) ++ empty_warning flags)
    end.
Proof.
  intros Hex. unfold get_flags. rewrite Hex, warn_step, log_step.
  destruct (_read_flags_file fs (c :: p)) as [[e|flags] evs]; reflexivity.
Qed.

Lemma get_flags_stdin path_exists fs stdin input_file :
  input_file = None \/ input_file = Some []
  \/ (exists p, input_file = Some p /\ path_exists p = inr false) ->
  get_flags path_exists fs stdin input_file
  = match _read_flags_stdin stdin with
    | (inl e, evs) => (inl e, evs)
    | (inr flags, evs) =>
        (inr flags,
         (evs ++ [Log INFO "从标准输入加载flag"]) ++ empty_warning flags)
    end.
Proof.
  intros H.
  assert (Hshape :
    get_flags path_exists fs stdin input_file
    = (flags <~ (flags <~ _read_flags_stdin stdin ;;
                 tell [Log INFO "从标准输入加载flag"] ;;; ret flags) ;;
       match flags with
       | [] => tell [Log WARNING "未获取到有效flag"]
       | _ :: _ => ret tt
       end ;;;
       ret flags)).
  { unfold get_flags. destruct H as [-> | [-> | (p & -> & Hp)]];
      try reflexivity.
    destruct p; [reflexivity|]. rewrite Hp. reflexivity. }
  rewrite Hshape, warn_step, log_step.
  destruct (_read_flags_stdin stdin) as [[e|flags] evs]; reflexivity.
Qed.

Lemma get_flags_probe path_exists fs stdin c p e :
  path_exists (c :: p) = inl e ->
  get_flags path_exists fs stdin (Some (c :: p)) = (inl e, []).
Proof. intros Hex. unfold get_flags. rewrite Hex. reflexivity. Qed.

Lemma get_flags_cases (path_exists : pystr -> exn + bool)
    (input_file : option pystr) :
  (exists c p, input_file = Some (c :: p)
               /\ path_exists (c :: p) = inr true)
  \/ (exists c p e, input_file = Some (c :: p)
                    /\ path_exists (c :: p) = inl e)
  \/ (input_file = None \/ input_file = Some []
      \/ (exists p, input_file = Some p /\ path_exists p = inr false)).
Proof.
  destruct input_file as [[|c p]|]; auto.
  destruct (path_exists (c :: p)) as [e|[|]] eqn:E; eauto 8.
Qed.

(** X13. When [get_flags] is given the path of an existing file, the file
    alone decides: the flags are those read from it (none when it cannot be
    read), standard input is not consulted, and nothing is raised. *)
Theorem get_flags_prefers_file path_exists fs stdin p :
  p <> [] -> path_exists p = inr true ->
  (exists evs,
     get_flags path_exists fs stdin (Some p)
     = (inr (match fs p with
             | Lines f => List.map strip (List.filter _validate_flag f)
             | ReadFails _ => []
             end), evs))
  /\ get_flags path_exists fs stdin (Some p)
     = get_flags path_exists fs Tty (Some p).
Proof.
  intros Hp Hex. destruct p as [|c p]; [contradiction|].
  rewrite !get_flags_file by exact Hex. split; [|reflexivity].
  destruct (read_flags_file_run fs (c :: p)) as [evs ->].
  eexists. reflexivity.
Qed.

(** X14. Whatever the source, every flag that [get_flags] returns is a
    canonical flag, and the warning about missing flags is logged exactly
    when the returned list is empty. *)
Theorem get_flags_canonical path_exists fs stdin input_file flags evs :
  get_flags path_exists fs stdin input_file = (inr flags, evs) ->
  Forall canonical_flag flags
  /\ (In (Log WARNING "未获取到有效flag") evs <-> flags = []).
Proof.
  intros H.
  assert (Hsrc : exists evs0 msg,
             Forall canonical_flag flags
             /\ evs = (evs0 ++ [Log INFO msg]) ++ empty_warning flags
             /\ ~ In (Log WARNING "未获取到有效flag") evs0).
  { destruct (get_flags_cases path_exists input_file)
      as [(c & p & -> & Hex) | [(c & p & e & -> & Hex) | Hno]].
    - rewrite get_flags_file in H by exact Hex.
      destruct (_read_flags_file fs (c :: p)) as [res evs0] eqn:E.
      apply read_flags_file_shape in E as (fl & -> & Hc & Hno).
      injection H as <- <-. eexists _, _. eauto.
    - rewrite (get_flags_probe _ _ _ _ _ _ Hex) in H. discriminate.
    - rewrite get_flags_stdin in H by exact Hno.
      destruct (_read_flags_stdin stdin) as [[e|fl] evs0] eqn:E;
        [discriminate|].
      injection H as <- <-.
      apply stdin_flags_shape in E as [Hc ->].
      eexists _, _. split; [exact Hc|]. split; [reflexivity | intros []]. }
  destruct Hsrc as (evs0 & msg & Hc & -> & Hno).
  split; [exact Hc|]. rewrite !in_app_iff. destruct flags as [|f flags]; cbn.
  - split; [reflexivity | auto].
  - split; [|discriminate]. intros [[Hin | [Hin | []]] | []];
      [contradiction | discriminate].
Qed.

(** X15. [get_flags] raises in two cases only: probing the path raises, or
    it turns to standard input (no path, an empty path or no file at the
    path) and reading the pipe raises.  The exception is the one of the probe
    or of the read, and nothing has been logged; a file that cannot be read
    never makes it raise. *)
Theorem get_flags_raises_only_from_outside path_exists fs stdin input_file
    e evs :
  get_flags path_exists fs stdin input_file = (inl e, evs) ->
  evs = []
  /\ ((exists p, input_file = Some p /\ path_exists p = inl e)
      \/ (stdin = PipeFails e
          /\ (input_file = None \/ input_file = Some []
              \/ exists p, input_file = Some p
                           /\ path_exists p = inr false))).
Proof.
  intros H.
  destruct (get_flags_cases path_exists input_file)
    as [(c & p & -> & Hex) | [(c & p & e' & -> & Hex) | Hno]].
  - rewrite get_flags_file in H by exact Hex.
    destruct (_read_flags_file fs (c :: p)) as [res evs0] eqn:E.
    apply read_flags_file_shape in E as (fl & -> & _). discriminate.
  - rewrite (get_flags_probe _ _ _ _ _ _ Hex) in H. injection H as <- <-.
    split; [reflexivity|]. left. eauto.
  - rewrite get_flags_stdin in H by exact Hno.
    destruct stdin as [|data|e']; try discriminate.
    injection H as <- <-. auto.
Qed.

(** * Statistics *)

Lemma success_count_bounds results :
  0 <= success_count results <= Z.of_nat (length results).
Proof.
  unfold success_count.
  pose proof (List.filter_length_le
                (fun r : gmap string pyval => truthy (get (r !! "success") VNone))
                results).
  lia.
Qed.

Lemma percent_bounds sc total :
  0 <= sc <= total -> 0 < total ->
  (0 <= inject_Z sc / inject_Z total * 100 <= 100)%Q.
Proof.
  intros Hsc Ht. destruct total as [|p|p]; try lia.
  unfold Qle, Qdiv, Qmult, Qinv, inject_Z. cbn. split; nia.
Qed.

Lemma summary_defined results :
  results <> [] ->
  exists pct,
    summary results
    = (inr (success_count results, Z.of_nat (length results), pct), [])
    /\ (0 <= pct <= 100)%Q.
Proof.
  intros Hne. unfold summary, truediv.
  assert (Hlen : 0 < Z.of_nat (length results))
    by (destruct results; [contradiction | cbn [length]; lia]).
  destruct (Z.eqb_spec (Z.of_nat (length results)) 0) as [|_]; [lia|].
  unfold ret. rewrite bind_pure.
  eexists. split; [reflexivity|].
  apply percent_bounds; [apply success_count_bounds | exact Hlen].
Qed.

Lemma count_success_agrees results :
  Forall has_success results ->
  count_success results = (inr (success_count results), []).
Proof.
  induction 1 as [|r rest [b Hb] _ IH]; [reflexivity|].
  cbn [count_success]. rewrite Hb, IH. cbn [getitem]. unfold ret.
  repeat (rewrite bind_pure; cbv beta).
  unfold success_count, get. cbn [List.filter]. rewrite Hb.
  destruct b; cbn [default truthy id length]; do 2 f_equal; lia.
Qed.

(** X16. For every non-empty list of result dicts, whatever their keys, the
    statistics of the summary line are defined: the success count lies
    between 0 and the number of results and the percentage between 0 and
    100. *)
Theorem summary_bounds results :
  results <> [] ->
  exists pct,
    summary results
    = (inr (success_count results, Z.of_nat (length results), pct), [])
    /\ 0 <= success_count results <= Z.of_nat (length results)
    /\ (0 <= pct <= 100)%Q.
Proof.
  intros Hne. destruct (summary_defined results Hne) as (pct & Hs & Hp).
  exists pct. split; [exact Hs|]. split; [apply success_count_bounds | exact Hp].
Qed.

(** X17. On every list that [submit_all] returns, the count of successes
    that the engine computes with [r['success']] is defined and equals the
    count that the summary line of [main] computes with [r.get('success')]:
    the logged rate and the printed rate agree. *)
Theorem success_counts_agree self world flags results evs :
  submit_all self world flags = (inr results, evs) ->
  count_success results = (inr (success_count results), []).
Proof.
  intros Hrun. apply count_success_agrees.
  apply submit_all_returns in Hrun as [[_ ->] | (_ & _ & ->)].
  - constructor.
  - apply futures_success.
Qed.

(** * [main] *)

Lemma then_run_ok {A B} (m : M A) a evs
    (k : A -> (exn + B) * list action) :
  m = (inr a, evs) ->
  then_ (run m) k = (fst (k a), List.map Engine evs ++ snd (k a)).
Proof. intros ->. unfold then_, run. cbn. destruct (k a); reflexivity. Qed.

Lemma then_run_raise {A B} (m : M A) e evs
    (k : A -> (exn + B) * list action) :
  m = (inl e, evs) -> then_ (run m) k = (inl e, List.map Engine evs).
Proof. intros ->. reflexivity. Qed.

Lemma requests_app acts1 acts2 :
  requests (acts1 ++ acts2) = (requests acts1 + requests acts2)%nat.
Proof. unfold requests. rewrite List.filter_app, length_app. reflexivity. Qed.

Lemma requests_engine evs : requests (List.map Engine evs) = posts evs.
Proof.
  unfold requests, posts. induction evs as [|[r|s|lv msg] evs IH]; cbn; auto.
Qed.

Lemma main_body_stages a env c evs1 self evs2 flags evs3 :
  load_config (config_files env) (a_config a) = (inr c, evs1) ->
  __init__ c = (inr self, evs2) ->
  get_flags (path_exists env) (flag_files env) (stdin env) (a_input_file a)
  = (inr flags, evs3) ->
  main_body a env
  = let tail :=
      match flags with
      | [] => (inr None, [Engine (Log ERROR "未获取到有效flag，退出程序")])
      | _ :: _ => submit_and_report a env self flags
      end in
    (fst tail,
     List.map Engine evs1 ++ List.map Engine evs2 ++ List.map Engine evs3
     ++ snd tail).
Proof.
  intros H1 H2 H3. unfold main_body.
  rewrite (then_run_ok _ _ _ _ H1). cbv beta.
  rewrite (then_run_ok _ _ _ _ H2). cbv beta.
  rewrite (then_run_ok _ _ _ _ H3). cbv beta.
  cbn [fst snd]. destruct flags as [|f flags]; reflexivity.
Qed.

Lemma submit_and_report_returns a env self flags results evs :
  flags <> [] ->
  submit_all self (network env) flags = (inr results, evs) ->
  output_written a env ->
  exists written pct,
    submit_and_report a env self flags
    = (inr (Some results),
       List.map Engine evs ++ written
       ++ [Printed (success_count results) (Z.of_nat (length results)) pct])
    /\ requests written = 0%nat
    /\ (0 <= pct <= 100)%Q.
Proof.
  intros Hflags Hrun Hout.
  assert (Hne : results <> []).
  { apply submit_all_returns in Hrun as [[-> _] | (_ & Hne & _)];
      [contradiction | exact Hne]. }
  destruct (summary_defined results Hne) as (pct & Hsum & Hpct).
  unfold submit_and_report. rewrite (then_run_ok _ _ _ _ Hrun). cbv beta.
  rewrite (then_run_ok _ _ _ _ Hsum). cbn [fst snd List.map app].
  destruct Hout as [Hout Hprint]. rewrite Hprint.
  destruct (a_output a) as [[|ch p]|].
  - exists [], pct. cbn. auto.
  - rewrite Hout.
    exists [Wrote (ch :: p) results; Engine (Log INFO "结果已保存到文件")], pct.
    cbn. auto.
  - exists [], pct. cbn. auto.
Qed.


Lemma load_config_posts fs config_path :
  posts (snd (load_config fs config_path)) = 0%nat.
Proof.
  unfold load_config. destruct config_path as [[|c p]|]; try reflexivity.
  destruct (fs (c :: p)); reflexivity.
Qed.

Lemma init_events config_data res evs :
  __init__ config_data = (res, evs) -> posts evs = 0%nat.
Proof.
  unfold __init__. cbn [targets].
  destruct (get (c_targets config_data) []); intros [= <- <-]; reflexivity.
Qed.

Lemma empty_warning_posts flags : posts (empty_warning flags) = 0%nat.
Proof. destruct flags; reflexivity. Qed.

Lemma get_flags_posts path_exists fs stdin input_file :
  posts (snd (get_flags path_exists fs stdin input_file)) = 0%nat.
Proof.
  destruct (get_flags_cases path_exists input_file)
    as [(c & p & -> & Hex) | [(c & p & e & -> & Hex) | Hno]].
  - rewrite get_flags_file by exact Hex. unfold _read_flags_file.
    destruct (fs (c :: p)); cbn [snd tell ret bind fst];
      rewrite ?posts_app, empty_warning_posts; reflexivity.
  - rewrite (get_flags_probe _ _ _ _ _ _ Hex). reflexivity.
  - rewrite get_flags_stdin by exact Hno.
    destruct stdin as [|data|e]; cbn [_read_flags_stdin ret raise snd];
      rewrite ?posts_app, ?empty_warning_posts; reflexivity.
Qed.

(** X18. When the configuration that was loaded has no target, [main] ends
    with exit status 1 right after the constructor: the flags are not read
    and no request is made. *)
Theorem main_without_targets a env c evs :
  load_config (config_files env) (a_config a) = (inr c, evs) ->
  c_targets c = None \/ c_targets c = Some [] ->
  main a env
  = (1, List.map Engine evs
        ++ [Engine (Log ERROR "No valid targets configured");
            Engine (Log CRITICAL "程序运行异常")])
  /\ requests (snd (main a env)) = 0%nat.
Proof.
  intros Hload Hc.
  assert (Hinit : __init__ c
                  = (inl (ValueError "至少需要配置一个目标服务器"),
                     [Log ERROR "No valid targets configured"])).
  { unfold __init__. destruct Hc as [-> | ->]; reflexivity. }
  assert (Hmain : main a env
    = (1, List.map Engine evs
          ++ [Engine (Log ERROR "No valid targets configured");
              Engine (Log CRITICAL "程序运行异常")])).
  { unfold main, main_body. rewrite (then_run_ok _ _ _ _ Hload). cbv beta.
    rewrite (then_run_raise _ _ _ _ Hinit). cbn [fst snd List.map].
    rewrite <- app_assoc. reflexivity. }
  split; [exact Hmain|]. rewrite Hmain. cbn [snd].
  rewrite requests_app, requests_engine.
  pose proof (load_config_posts (config_files env) (a_config a)) as Hp.
  rewrite Hload in Hp. cbn [snd] in Hp. rewrite Hp. reflexivity.
Qed.

(** X19. When no valid flag is found, [main] logs an error and returns
    with exit status 0 without submitting anything: no request is made,
    nothing is written and no summary is printed. *)
Theorem main_without_flags a env c evs1 self evs2 evs3 :
  load_config (config_files env) (a_config a) = (inr c, evs1) ->
  __init__ c = (inr self, evs2) ->
  get_flags (path_exists env) (flag_files env) (stdin env) (a_input_file a)
  = (inr [], evs3) ->
  main a env
  = (0, List.map Engine evs1 ++ List.map Engine evs2 ++ List.map Engine evs3
        ++ [Engine (Log ERROR "未获取到有效flag，退出程序")])
  /\ requests (snd (main a env)) = 0%nat.
Proof.
  intros H1 H2 H3.
  assert (Hmain : main a env
    = (0, List.map Engine evs1 ++ List.map Engine evs2
          ++ List.map Engine evs3
          ++ [Engine (Log ERROR "未获取到有效flag，退出程序")])).
  { unfold main. rewrite (main_body_stages a env c evs1 self evs2 [] evs3)
      by assumption. reflexivity. }
  split; [exact Hmain|]. rewrite Hmain. cbn [snd].
  rewrite !requests_app, !requests_engine.
  pose proof (load_config_posts (config_files env) (a_config a)) as Hp1.
  rewrite H1 in Hp1.
  pose proof (init_events _ _ _ H2) as Hp2.
  pose proof (get_flags_posts (path_exists env) (flag_files env) (stdin env)
                (a_input_file a)) as Hp3.
  rewrite H3 in Hp3. cbn [snd] in Hp1, Hp3. rewrite Hp1, Hp2, Hp3.
  reflexivity.
Qed.

(** X20. Whenever [submit_all] returns in a run of [main] and the output
    (the file, if one is asked for, and the line itself) can be written, the
    summary line is printed and
    the exit status is 0: the division of the summary is never by zero, the
    printed total is the number of results, the success count lies between 0
    and that total and the percentage between 0 and 100. *)
Theorem main_prints_summary a env c evs1 self evs2 flags evs3 results evs4 :
  load_config (config_files env) (a_config a) = (inr c, evs1) ->
  __init__ c = (inr self, evs2) ->
  get_flags (path_exists env) (flag_files env) (stdin env) (a_input_file a)
  = (inr flags, evs3) ->
  flags <> [] ->
  submit_all self (network env) flags = (inr results, evs4) ->
  output_written a env ->
  exists acts pct,
    main a env
    = (0, acts ++ [Printed (success_count results)
                           (Z.of_nat (length results)) pct])
    /\ requests acts = posts evs4
    /\ 0 <= success_count results <= Z.of_nat (length results)
    /\ 0 < Z.of_nat (length results)
    /\ (0 <= pct <= 100)%Q.
Proof.
  intros H1 H2 H3 Hflags H4 Hout.
  destruct (submit_and_report_returns a env self flags results evs4
              Hflags H4 Hout) as (written & pct & Hrep & Hw & Hpct).
  exists (List.map Engine evs1 ++ List.map Engine evs2
          ++ List.map Engine evs3 ++ List.map Engine evs4 ++ written), pct.
  split.
  { unfold main. rewrite (main_body_stages a env c evs1 self evs2 flags evs3)
      by assumption.
    destruct flags as [|f flags]; [contradiction|]. cbv zeta. rewrite Hrep.
    cbn [fst snd]. rewrite <- !app_assoc. reflexivity. }
  split.
  { rewrite !requests_app, !requests_engine, Hw.
    pose proof (load_config_posts (config_files env) (a_config a)) as Hp1.
    rewrite H1 in Hp1.
    pose proof (init_events _ _ _ H2) as Hp2.
    pose proof (get_flags_posts (path_exists env) (flag_files env)
                  (stdin env) (a_input_file a)) as Hp3.
    rewrite H3 in Hp3. cbn [snd] in Hp1, Hp3. lia. }
  split; [apply success_count_bounds|]. split; [|exact Hpct].
  apply submit_all_returns in H4 as [[-> _] | (_ & Hne & _)];
    [contradiction|].
  destruct results; [contradiction | cbn [length]; lia].
Qed.


(** * Reading back what was read *)

Lemma canonical_line t :
  canonical_flag t ->
  _validate_flag (t ++ [10%N]) = true /\ strip (t ++ [10%N]) = t.
Proof.
  intros Ht.
  assert (Hws : whitespace [10%N]) by (repeat constructor).
  assert (Hnil : whitespace []) by constructor.
  split.
  - apply validate_iff. exists [], t, [10%N].
    repeat split; auto.
  - destruct (canonical_ends _ Ht) as (c & m & d & m' & Hhead & Hlast & Hc & Hd).
    apply (strip_exact [] [10%N] c d m Hnil Hws Hc Hd t Hhead).
    exists m'. exact Hlast.
Qed.

Lemma stripped_valid_lines_written ts :
  Forall canonical_flag ts ->
  stripped_valid_lines (List.map (fun t => t ++ [10%N]) ts) = ts.
Proof.
  induction 1 as [|t ts Ht _ IH]; [reflexivity|].
  cbn [List.map stripped_valid_lines].
  destruct (canonical_line t Ht) as [-> ->]. rewrite IH. reflexivity.
Qed.

(** X22. The flags that [_read_flags_file] returns, written to a file one
    per line, are read back unchanged: same flags, same order, none lost. *)
Theorem read_flags_file_round_trip fs p flags evs fs' p' :
  _read_flags_file fs p = (inr flags, evs) ->
  fs' p' = Lines (List.map (fun t => t ++ [10%N]) flags) ->
  _read_flags_file fs' p' = (inr flags, []).
Proof.
  intros Hread Hfile.
  apply read_flags_file_shape in Hread as (fl & [= <-] & Hc & _).
  unfold _read_flags_file. rewrite Hfile.
  rewrite stripped_valid_lines_written by exact Hc. reflexivity.
Qed.

(** * The built-in configuration, end to end *)

(** When no task raises and the pool can be created, every task's result is
    returned. *)
Lemma submit_all_complete self world flags :
  flags <> [] -> targets self <> [] -> 0 < max_workers self ->
  Forall returned (futures self world flags) ->
  exists results evs,
    submit_all self world flags = (inr results, evs)
    /\ length results = (length flags * length (targets self))%nat.
Proof.
  intros Hflags Ht Hw Hall.
  apply harvested_all in Hall as [Hlen _]. rewrite futures_length in Hlen.
  destruct (submit_all_run self world flags Hflags Hw) as (evs & _ & ->).
  destruct (harvested (futures self world flags)) as [|r rs] eqn:Hh.
  - exfalso. destruct flags; [contradiction|].
    destruct (targets self); [contradiction | cbn in Hlen; lia].
  - eexists _, _. split; [reflexivity | exact Hlen].
Qed.

(** X23. Without a configuration file the program runs on the built-in
    configuration: two targets, five workers, two attempts, no TLS
    verification.  Both targets have every key, so for any non-empty list of
    flags and whatever the network does, [submit_all] returns two results per
    flag after at most four requests per flag. *)
Theorem default_config_run fs world flags :
  flags <> [] ->
  exists self results evs,
    (config <~ load_config fs None ;; __init__ config)
    = (inr self, [Log WARNING "使用内置默认配置"])
    /\ length (targets self) = 2%nat
    /\ max_workers self = 5 /\ max_retries self = 2
    /\ verify_ssl self = false
    /\ submit_all self world flags = (inr results, evs)
    /\ length results = (2 * length flags)%nat
    /\ (posts evs <= 4 * length flags)%nat.
Proof.
  intros Hflags.
  set (self := {| targets := get (c_targets DEFAULT_CONFIG) [];
                  max_workers := 5; max_retries := 2;
                  verify_ssl := false |}).
  assert (Hall : Forall returned (futures self world flags)).
  { apply Forall_lookup. intros k m Hk.
    apply futures_lookup in Hk as (t & f & Hk & ->).
    apply tasks_lookup_inv in Hk as (i & j & _ & _ & Hj).
    assert (Hreq : exists req, request_of self t f = (inr req, [])).
    { destruct j as [|[|j]]; try discriminate;
        injection Hj as <-; eexists; reflexivity. }
    destruct Hreq as [req Hreq].
    destruct (submit_single_any self (world k) t f req [] Hreq)
      as (r0 & r & evs & _ & _ & -> & _). exists r. reflexivity. }
  destruct (submit_all_complete self world flags Hflags)
    as (results & evs & Hrun & Hlen); [discriminate | reflexivity | exact Hall |].
  exists self, results, evs.
  split; [reflexivity|]. repeat (split; [reflexivity|]).
  split; [exact Hrun|]. split; [rewrite Hlen; cbn; lia|].
  pose proof (submit_all_posts self world flags) as Hp.
  rewrite Hrun in Hp. cbn [snd] in Hp.
  change (length (targets self)) with 2%nat in Hp.
  change (max_retries self) with 2 in Hp. lia.
Qed.

(** * Concrete runs for the further properties *)

Lemma ex_retried_run :
  ex_retried = (inr ex_retried_result, snd ex_retried).
Proof. vm_cast_no_check (eq_refl ex_retried). Qed.

Lemma submit_single_bounded_witness :
  exists result evs,
    submit_single (ex_submitter [ex_target]) flaky ex_target ex_flag
    = (inr result, evs ++ [Log INFO "提交结果"])
    /\ Z.of_nat (posts evs) <= 2
    /\ Forall (fun e => e = Post ex_request \/ e = Sleep 1) evs.
Proof.
  apply (submit_single_bounded (ex_submitter [ex_target]) flaky ex_target
           ex_flag ex_request []).
  reflexivity.
Defined.


Lemma submit_single_success_iff_200_witness :
  ex_retried_result !! "success" = Some (VBool true)
  <-> ex_retried_result !! "status_code" = Some (VInt 200).
Proof.
  apply (submit_single_success_iff_200 (ex_submitter [ex_target]) flaky
           ex_target ex_flag ex_retried_result (snd ex_retried)).
  exact ex_retried_run.
Defined.

Lemma submit_single_sleeps_witness :
  (ex_retried_result !! "attempt" = None ->
   sleeps (snd ex_retried) = posts (snd ex_retried)
   /\ Z.of_nat (posts (snd ex_retried)) = 2)
  /\ (is_Some (ex_retried_result !! "attempt") ->
      posts (snd ex_retried) = S (sleeps (snd ex_retried))).
Proof.
  apply (submit_single_sleeps (ex_submitter [ex_target]) flaky
           ex_target ex_flag ex_retried_result (snd ex_retried)).
  exact ex_retried_run.
Defined.

Lemma submit_single_keeps_error_witness :
  exists result evs,
    submit_single (ex_submitter [ex_target]) flaky ex_target ex_flag
    = (inr result, evs)
    /\ result !! "error" = Some (VStr (py "timed out"))
    /\ result !! "success" = Some (VBool true).
Proof.
  apply (submit_single_keeps_error (ex_submitter [ex_target]) flaky
           ex_target ex_flag ex_request [] (fun _ => py "timed out") 2
           {| status_code := 200; text := py "ok" |}).
  - reflexivity.
  - simpl. lia.
  - intros j Hj. assert (j = 1) as -> by lia. reflexivity.
  - reflexivity.
Defined.

Lemma ex_mixed_run :
  exists evs,
    submit_all ex_mixed (fun _ => always_500) [ex_flag]
    = (inr ex_mixed_results, evs).
Proof.
  exists (snd (submit_all ex_mixed (fun _ => always_500) [ex_flag])).
  vm_cast_no_check
    (eq_refl (submit_all ex_mixed (fun _ => always_500) [ex_flag])).
Qed.

Lemma submit_all_result_shape_witness :
  exists evs,
    submit_all ex_mixed (fun _ => always_500) [ex_flag]
    = (inr ex_mixed_results, evs)
    /\ ex_mixed_results <> []
    /\ (length ex_mixed_results <= 1 * 2)%nat
    /\ Forall has_success ex_mixed_results.
Proof.
  destruct ex_mixed_run as [evs Hrun]. exists evs. split; [exact Hrun|].
  apply (submit_all_result_shape ex_mixed (fun _ => always_500) [ex_flag]
           ex_mixed_results evs); [discriminate | exact Hrun].
Defined.


Lemma submit_all_keeps_returned_witness :
  exists r evs,
    fst (submit_single ex_mixed always_500 ex_target ex_flag) = inr r
    /\ submit_all ex_mixed (fun _ => always_500) [ex_flag]
       = (inr ex_mixed_results, evs)
    /\ In r ex_mixed_results.
Proof.
  eexists.
  destruct (submit_all_keeps_returned ex_mixed (fun _ => always_500)
              [ex_flag] 1%nat ex_target ex_flag _ ltac:(simpl; lia)
              eq_refl eq_refl) as (evs & Hrun & Hin).
  exists evs. split; [reflexivity|]. split; [exact Hrun | exact Hin].
Defined.

Lemma stdin_flags_canonical_witness :
  Forall canonical_flag [ex_flag; ex_flag; ex_flag]
  /\ @nil event = []
  /\ (Piped ex_piped = Tty -> [ex_flag; ex_flag; ex_flag] = []).
Proof.
  apply (stdin_flags_canonical (Piped ex_piped)). vm_compute. reflexivity.
Defined.

Lemma ex_flag_canonical : canonical_flag ex_flag.
Proof. apply fullmatch_canonical. reflexivity. Qed.

Lemma stdin_round_trip_witness :
  _read_flags_stdin (Piped ex_piped) = (inr [ex_flag; ex_flag; ex_flag], []).
Proof.
  apply (stdin_round_trip (py " ") ex_flag
           [(py ", ", ex_flag); (py " ", ex_flag)] [10%N]).
  - repeat constructor.
  - repeat constructor.
  - exact ex_flag_canonical.
  - repeat constructor; try discriminate; exact ex_flag_canonical.
Defined.

Lemma get_flags_prefers_file_witness :
  (exists evs,
     get_flags (fun _ => inr true) (fun _ => Lines [ex_line; py "junk"])
               (Piped ex_piped) (Some (py "flags.txt"))
     = (inr [ex_flag], evs))
  /\ get_flags (fun _ => inr true) (fun _ => Lines [ex_line; py "junk"])
               (Piped ex_piped) (Some (py "flags.txt"))
     = get_flags (fun _ => inr true) (fun _ => Lines [ex_line; py "junk"])
                 Tty (Some (py "flags.txt")).
Proof.
  apply (get_flags_prefers_file (fun _ => inr true)
           (fun _ => Lines [ex_line; py "junk"]) (Piped ex_piped)
           (py "flags.txt")); [discriminate | reflexivity].
Defined.

Lemma get_flags_canonical_witness :
  Forall canonical_flag []
  /\ (In (Log WARNING "未获取到有效flag")
         [Log INFO "从标准输入加载flag"; Log WARNING "未获取到有效flag"]
      <-> @nil pystr = []).
Proof.
  apply (get_flags_canonical (fun _ => inr false) (fun _ => ReadFails [])
           Tty None).
  reflexivity.
Defined.

Lemma get_flags_raises_only_from_outside_witness :
  @nil event = []
  /\ ((exists p, @None pystr = Some p
                 /\ (fun _ : pystr => @inr exn bool false) p
                    = inl (OSError (py "invalid start byte")))
      \/ (PipeFails (OSError (py "invalid start byte"))
          = PipeFails (OSError (py "invalid start byte"))
          /\ (@None pystr = None \/ @None pystr = Some []
              \/ exists p, None = Some p
                           /\ (fun _ : pystr => @inr exn bool false) p
                              = inr false))).
Proof.
  apply (get_flags_raises_only_from_outside (fun _ => inr false)
           (fun _ => ReadFails [])
           (PipeFails (OSError (py "invalid start byte"))) None).
  reflexivity.
Defined.

Lemma summary_bounds_witness :
  exists pct,
    summary ex_mixed_results
    = (inr (success_count ex_mixed_results,
            Z.of_nat (length ex_mixed_results), pct), [])
    /\ 0 <= success_count ex_mixed_results
       <= Z.of_nat (length ex_mixed_results)
    /\ (0 <= pct <= 100)%Q.
Proof.
  apply summary_bounds. discriminate.
Defined.

Lemma success_counts_agree_witness :
  count_success ex_mixed_results
  = (inr (success_count ex_mixed_results), []).
Proof.
  destruct ex_mixed_run as [evs Hrun].
  exact (success_counts_agree ex_mixed (fun _ => always_500) [ex_flag]
           ex_mixed_results evs Hrun).
Defined.

Lemma main_without_targets_witness :
  main {| a_config := Some (py "targets.yaml"); a_input_file := None;
          a_output := None; a_verbose := false |}
       {| config_files := fun _ => Holds (ex_config []);
          path_exists := fun _ => inr false;
          flag_files := fun _ => ReadFails [];
          stdin := Piped ex_flag;
          network := fun _ => always_500;
          write_output := fun _ => None;
          print_summary := None |}
  = (1, List.map Engine []
        ++ [Engine (Log ERROR "No valid targets configured");
            Engine (Log CRITICAL "程序运行异常")])
  /\ requests (snd (main
       {| a_config := Some (py "targets.yaml"); a_input_file := None;
          a_output := None; a_verbose := false |}
       {| config_files := fun _ => Holds (ex_config []);
          path_exists := fun _ => inr false;
          flag_files := fun _ => ReadFails [];
          stdin := Piped ex_flag;
          network := fun _ => always_500;
          write_output := fun _ => None;
          print_summary := None |})) = 0%nat.
Proof.
  apply (main_without_targets _ _ (ex_config []) []).
  - reflexivity.
  - right. reflexivity.
Defined.

Lemma main_without_flags_witness :
  main ex_args {| config_files := fun _ => Absent;
                  path_exists := fun _ => inr false;
                  flag_files := fun _ => ReadFails [];
                  stdin := Tty;
                  network := fun _ => always_500;
                  write_output := fun _ => None;
          print_summary := None |}
  = (0, List.map Engine [Log WARNING "使用内置默认配置"]
        ++ List.map Engine []
        ++ List.map Engine [Log INFO "从标准输入加载flag";
                            Log WARNING "未获取到有效flag"]
        ++ [Engine (Log ERROR "未获取到有效flag，退出程序")])
  /\ requests (snd (main ex_args
       {| config_files := fun _ => Absent;
          path_exists := fun _ => inr false;
          flag_files := fun _ => ReadFails [];
          stdin := Tty;
          network := fun _ => always_500;
          write_output := fun _ => None;
          print_summary := None |})) = 0%nat.
Proof.
  apply (main_without_flags _ _ DEFAULT_CONFIG _ ex_default_engine).
  - reflexivity.
  - reflexivity.
  - reflexivity.
Defined.

Lemma ex_default_run :
  exists evs,
    submit_all ex_default_engine (network ex_env) [ex_flag]
    = (inr ex_default_results, evs).
Proof.
  exists (snd (submit_all ex_default_engine (network ex_env) [ex_flag])).
  vm_cast_no_check
    (eq_refl (submit_all ex_default_engine (network ex_env) [ex_flag])).
Qed.

Lemma main_prints_summary_witness :
  exists acts pct evs4,
    main ex_args ex_env
    = (0, acts ++ [Printed (success_count ex_default_results)
                           (Z.of_nat (length ex_default_results)) pct])
    /\ requests acts = posts evs4
    /\ 0 <= success_count ex_default_results
       <= Z.of_nat (length ex_default_results)
    /\ 0 < Z.of_nat (length ex_default_results)
    /\ (0 <= pct <= 100)%Q.
Proof.
  destruct ex_default_run as [evs4 Hrun].
  assert (H1 : load_config (config_files ex_env) (a_config ex_args)
               = (inr DEFAULT_CONFIG, [Log WARNING "使用内置默认配置"]))
    by reflexivity.
  assert (H2 : __init__ DEFAULT_CONFIG = (inr ex_default_engine, []))
    by reflexivity.
  assert (H3 : get_flags (path_exists ex_env) (flag_files ex_env)
                 (stdin ex_env) (a_input_file ex_args)
               = (inr [ex_flag], [Log INFO "从标准输入加载flag"]))
    by (vm_compute; reflexivity).
  assert (Hne : [ex_flag] <> []) by discriminate.
  destruct (main_prints_summary ex_args ex_env DEFAULT_CONFIG _
              ex_default_engine _ [ex_flag] _ ex_default_results evs4
              H1 H2 H3 Hne Hrun (conj I eq_refl)) as (acts & pct & H).
  exists acts, pct, evs4. exact H.
Defined.

Lemma read_flags_file_round_trip_witness :
  _read_flags_file (fun _ => Lines [ex_line; ex_line]) (py "again.txt")
  = (inr [ex_flag; ex_flag], []).
Proof.
  apply (read_flags_file_round_trip
           (fun _ => Lines [ex_line; py "not a flag"; ex_line])
           (py "flags.txt") [ex_flag; ex_flag] []
           (fun _ => Lines [ex_line; ex_line]) (py "again.txt"));
    [vm_compute; reflexivity | reflexivity].
Defined.

Lemma default_config_run_witness :
  exists self results evs,
    (config <~ load_config (fun _ => Absent) None ;; __init__ config)
    = (inr self, [Log WARNING "使用内置默认配置"])
    /\ length (targets self) = 2%nat
    /\ max_workers self = 5 /\ max_retries self = 2
    /\ verify_ssl self = false
    /\ submit_all self (fun _ => always_refused) [ex_flag; ex_flag]
       = (inr results, evs)
    /\ length results = (2 * 2)%nat
    /\ (posts evs <= 4 * 2)%nat.
Proof.
  apply (default_config_run (fun _ => Absent) (fun _ => always_refused)
           [ex_flag; ex_flag]).
  discriminate.
Defined.
